(** * ecommerce_sales_analysis: the cleaning script [scripts/data_cleaning.py]

    A shallow embedding of the script's row repair loader, date parser,
    customer clean-up, merge and derived columns, and of the control flow of
    its single error boundary, with the properties of each stated and proved.

    Conventions.
    - A Python [str] is a sequence of Unicode code points: [list N].
    - A pandas cell that may be missing (NaN) is an [option]; [None] is NaN.
    - Numbers are exact rationals [Q]: the decimal values written in the
      input files.  Binary rounding of float64 is outside the model.
    - Code that can raise returns a [result].
    - What Python and pandas do outside the cases written out here is a
      parameter, a [Library]. *)

From Stdlib Require Import String Ascii.
From Stdlib Require Import List NArith ZArith QArith Lia Lqa Bool.
Import ListNotations.

Close Scope Q_scope.
Open Scope nat_scope.

(** ** Exceptions and results *)

Inductive exn : Type :=
| IndexError
| ValueError
| AttributeError
| OtherException (message : list N).

Inductive result (A : Type) : Type :=
| Ok (a : A)
| Raise (e : exn).

Arguments Ok {A} a.
Arguments Raise {A} e.

Definition bind {A B} (r : result A) (k : A -> result B) : result B :=
  match r with
  | Ok a => k a
  | Raise e => Raise e
  end.

Declare Scope result_scope.
Delimit Scope result_scope with result.
Notation "x <- r ;; k" := (bind r (fun x => k))
  (at level 61, r at next level, right associativity) : result_scope.

(** ** Python strings *)

Module PyStr.

Definition char := N.
Definition str := list char.

(** A literal of the source, as code points (the literals used are ASCII,
    except the euro sign, which is written by its code point). *)
Definition lit (s : string) : str := map N_of_ascii (list_ascii_of_string s).

Definition comma : char := 44%N.
Definition newline : char := 10%N.

(** [s.split(sep)] for a one-character separator: never the empty list. *)
Fixpoint split (sep : char) (s : str) : list str :=
  match s with
  | [] => [[]]
  | c :: s' =>
      if N.eqb c sep then [] :: split sep s'
      else match split sep s' with
           | p :: ps => (c :: p) :: ps
           | [] => [[c]]
           end
  end.

(** [s.count(sep)] for a one-character [sep]. *)
Fixpoint count (sep : char) (s : str) : nat :=
  match s with
  | [] => 0
  | c :: s' => if N.eqb c sep then S (count sep s') else count sep s'
  end.

(** [sep.join(parts)]. *)
Fixpoint join (sep : char) (parts : list str) : str :=
  match parts with
  | [] => []
  | p :: ps =>
      match ps with
      | [] => p
      | _ :: _ => p ++ sep :: join sep ps
      end
  end.

(** [str.isspace] on one code point (CPython's [_PyUnicode_IsWhitespace]). *)
Definition isspace (c : char) : bool :=
  ((9 <=? c) && (c <=? 13) || (28 <=? c) && (c <=? 32)
   || (c =? 133) || (c =? 160) || (c =? 5760)
   || (8192 <=? c) && (c <=? 8202)
   || (c =? 8232) || (c =? 8233) || (c =? 8239) || (c =? 8287)
   || (c =? 12288))%N.

Fixpoint lstrip (s : str) : str :=
  match s with
  | [] => []
  | c :: s' => if isspace c then lstrip s' else s
  end.

Definition rstrip (s : str) : str := rev (lstrip (rev s)).

(** [s.strip()]. *)
Definition strip (s : str) : str := rstrip (lstrip s).

Fixpoint startswith (p s : str) : bool :=
  match p, s with
  | [], _ => true
  | _ :: _, [] => false
  | a :: p', c :: s' => N.eqb a c && startswith p' s'
  end.

(** [s.replace(old, new)] for a non-empty [old]: occurrences are found left
    to right and do not overlap.  [skip] counts the characters of a matched
    occurrence that are still to be passed over. *)
Fixpoint replace_from (old new : str) (skip : nat) (s : str) : str :=
  match s with
  | [] => []
  | c :: s' =>
      match skip with
      | S k => replace_from old new k s'
      | O =>
          if startswith old s
          then new ++ replace_from old new (length old - 1) s'
          else c :: replace_from old new 0 s'
      end
  end.

Definition replace (old new s : str) : str := replace_from old new 0 s.

Definition is_empty (s : str) : bool :=
  match s with [] => true | _ :: _ => false end.

End PyStr.

Import PyStr.

(** ** Row repair loader: [load_csv] *)

Module LoadCsv.

(** Line 11: the literal fix-up applied to the whole text. *)
Definition fixup (content : str) : str :=
  replace (lit "bob.wilson@,") (lit "bob.wilson@company.com") content.

(** Line 24: [parts[:7] + [','.join(parts[7:])]]. *)
Definition fixed_fields (parts : list str) : list str :=
  firstn 7 parts ++ [join comma (skipn 7 parts)].

Definition fixed_line (line : str) : str :=
  join comma (fixed_fields (split comma line)).

(** Lines 17-25: one iteration of the loop over [lines[1:]]. *)
Definition step (good_lines : list str) (line : str) : list str :=
  if is_empty (strip line) then good_lines
  else if Nat.eqb (count comma line) 7 then good_lines ++ [line]
  else
    let parts := split comma line in
    if Nat.eqb (length parts) 9 then good_lines ++ [fixed_line line]
    else good_lines.

(** Lines 11-25: the lines handed to [pd.read_csv].  [lines[0]] raises
    [IndexError] on an empty list. *)
Definition good_lines (content : str) : result (list str) :=
  let lines := split newline (fixup content) in
  match lines with
  | [] => Raise IndexError
  | header :: data => Ok (fold_left step data [header])
  end.

(** Line 27: the text passed to [pd.read_csv]. *)
Definition repaired_text (content : str) : result str :=
  (lines <- good_lines content ;; Ok (join newline lines))%result.

(** [lines[1:]]: the lines after the header. *)
Definition data_lines (content : str) : list str :=
  tl (split newline (fixup content)).

(** The two shapes of a data line that the loop keeps. *)
Definition accepted (line : str) : bool :=
  Nat.eqb (count comma line) 7 || Nat.eqb (length (split comma line)) 9.


End LoadCsv.

(** ** Date parsing: [parse_date] *)

Module Dates.

(** [datetime.date]: a day of the proleptic Gregorian calendar. *)
Record date : Type := Date { year : N; month : N; day : N }.

Definition is_leap (y : N) : bool :=
  ((y mod 4 =? 0) && (negb (y mod 100 =? 0) || (y mod 400 =? 0)))%N.

Definition days_in_month (y m : N) : N :=
  match m with
  | 1 | 3 | 5 | 7 | 8 | 10 | 12 => 31
  | 4 | 6 | 9 | 11 => 30
  | 2 => if is_leap y then 29 else 28
  | _ => 0
  end%N.

(** The check of [datetime.date(year, month, day)]. *)
Definition valid_date (y m d : N) : bool :=
  ((1 <=? y) && (y <=? 9999) && (1 <=? m) && (m <=? 12)
   && (1 <=? d) && (d <=? days_in_month y m))%N.

(** One-character classes of the regular expressions that [_strptime]
    builds for the directives; [\d] is taken on the ASCII digits. *)
Inductive cls : Type :=
| Digit
| Range (lo hi : char)
| Is (c : char).

Definition is_digit (c : char) : bool := ((48 <=? c) && (c <=? 57))%N.

Definition cls_match (k : cls) (c : char) : bool :=
  match k with
  | Digit => is_digit c
  | Range lo hi => ((lo <=? c) && (c <=? hi))%N
  | Is x => N.eqb c x
  end.

(** A directive's group: alternatives tried in order, each a sequence of
    classes. *)
Definition alternatives := list (list cls).

Definition ch (a : ascii) : char := N_of_ascii a.

(** [%Y]: [\d\d\d\d]. *)
Definition regex_Y : alternatives := [[Digit; Digit; Digit; Digit]].

(** [%m]: [1[0-2]|0[1-9]|[1-9]]. *)
Definition regex_m : alternatives :=
  [[Is (ch "1"); Range (ch "0") (ch "2")];
   [Is (ch "0"); Range (ch "1") (ch "9")];
   [Range (ch "1") (ch "9")]].

(** [%d]: [3[0-1]|[1-2]\d|0[1-9]|[1-9]| [1-9]]. *)
Definition regex_d : alternatives :=
  [[Is (ch "3"); Range (ch "0") (ch "1")];
   [Range (ch "1") (ch "2"); Digit];
   [Is (ch "0"); Range (ch "1") (ch "9")];
   [Range (ch "1") (ch "9")];
   [Is (ch " "); Range (ch "1") (ch "9")]].

Definition directive (d : char) : option alternatives :=
  if N.eqb d (ch "Y") then Some regex_Y
  else if N.eqb d (ch "m") then Some regex_m
  else if N.eqb d (ch "d") then Some regex_d
  else None.

Inductive item : Type :=
| Group (name : char) (alts : alternatives)
| Literal (c : char).

(** The format string as a sequence of groups and literal characters
    (the literals of the four formats are [-] and [/]).  [None]: a
    directive that is not one of [%Y], [%m], [%d], or a stray [%]. *)
Fixpoint compile (fmt : str) : option (list item) :=
  match fmt with
  | [] => Some []
  | c :: rest =>
      if N.eqb c (ch "%") then
        match rest with
        | [] => None
        | d :: rest' =>
            match directive d with
            | Some alts => option_map (cons (Group d alts)) (compile rest')
            | None => None
            end
        end
      else option_map (cons (Literal c)) (compile rest)
  end.

(** One alternative against the head of [s]: the text matched and the rest. *)
Fixpoint match_classes (ks : list cls) (s : str) : option (str * str) :=
  match ks with
  | [] => Some ([], s)
  | k :: ks' =>
      match s with
      | [] => None
      | c :: s' =>
          if cls_match k c then
            match match_classes ks' s' with
            | Some (txt, rest) => Some (c :: txt, rest)
            | None => None
            end
          else None
      end
  end.

(** All the ways a group matches at the head of [s], in the order in which
    a backtracking matcher tries them. *)
Definition match_group (alts : alternatives) (s : str) : list (str * str) :=
  flat_map (fun ks => match match_classes ks s with
                      | Some r => [r]
                      | None => []
                      end) alts.

(** All the matches of the whole pattern at the head of [s], in the
    matcher's order: the groups' texts and the unconsumed rest. *)
Fixpoint match_items (items : list item) (s : str) : list (list (char * str) * str) :=
  match items with
  | [] => [([], s)]
  | Literal c :: items' =>
      match s with
      | [] => []
      | x :: s' => if N.eqb x c then match_items items' s' else []
      end
  | Group name alts :: items' =>
      flat_map (fun tr : str * str =>
                  map (fun gr : list (char * str) * str =>
                         ((name, fst tr) :: fst gr, snd gr))
                      (match_items items' (snd tr)))
               (match_group alts s)
  end.

(** [int(text)] of a group's text: decimal digits, after an optional blank. *)
Definition int_of (text : str) : N :=
  fold_left (fun acc c => if is_digit c then (10 * acc + (c - 48))%N else acc)
            text 0%N.

Fixpoint group (name : char) (groups : list (char * str)) : option str :=
  match groups with
  | [] => None
  | (n, txt) :: gs => if N.eqb n name then Some txt else group name gs
  end.

Definition group_int (name : char) (default : N) (groups : list (char * str)) : N :=
  match group name groups with
  | Some txt => int_of txt
  | None => default
  end.

(** The matcher's first match must consume the whole text, and the fields
    (defaults 1900, 1, 1) must form a date. *)
Definition date_of_match (matches : list (list (char * str) * str)) : result date :=
  match matches with
  | [] => Raise ValueError
  | (groups, rest) :: _ =>
      if is_empty rest then
        let y := group_int (ch "Y") 1900 groups in
        let m := group_int (ch "m") 1 groups in
        let d := group_int (ch "d") 1 groups in
        if valid_date y m d then Ok (Date y m d) else Raise ValueError
      else Raise ValueError
  end.

(** [datetime.strptime(s, fmt).date()].  Every failure is a [ValueError]. *)
Definition strptime (s fmt : str) : result date :=
  match compile fmt with
  | None => Raise ValueError
  | Some items => date_of_match (match_items items s)
  end.

(** Line 52: the candidate formats, in the order tried. *)
Definition formats : list str :=
  [lit "%Y-%m-%d"; lit "%d/%m/%Y"; lit "%d-%m-%Y"; lit "%Y/%m/%d"].

(** Lines 52-57: the loop; only [ValueError] is caught. *)
Fixpoint try_formats (fmts : list str) (s : str) : result (option date) :=
  match fmts with
  | [] => Ok None
  | fmt :: fmts' =>
      match strptime s fmt with
      | Ok d => Ok (Some d)
      | Raise ValueError => try_formats fmts' s
      | Raise e => Raise e
      end
  end.

(** [str(date_str)]: a missing cell is the float NaN, whose [str] is "nan". *)
Definition to_str (cell : option str) : str :=
  match cell with
  | Some s => s
  | None => lit "nan"
  end.

(** [parse_date]; [None] is [np.nan]. *)
Definition parse_date (date_str : option str) : result (option date) :=
  try_formats formats (to_str date_str).

(** A date written out in a format: each directive as its zero-padded
    decimal field. *)
Definition digit_char (n : N) : char := (48 + n)%N.

Definition pad2 (n : N) : str :=
  [digit_char (n / 10); digit_char (n mod 10)]%N.

Definition pad4 (n : N) : str :=
  [digit_char (n / 1000); digit_char (n / 100 mod 10);
   digit_char (n / 10 mod 10); digit_char (n mod 10)]%N.

Definition write_item (d : date) (i : item) : str :=
  match i with
  | Literal c => [c]
  | Group name _ =>
      if N.eqb name (ch "Y") then pad4 (year d)
      else if N.eqb name (ch "m") then pad2 (month d)
      else if N.eqb name (ch "d") then pad2 (day d)
      else []
  end.

Definition write_date (fmt : str) (d : date) : str :=
  match compile fmt with
  | Some items => flat_map (write_item d) items
  | None => []
  end.

(** Names for the patterns and texts of the four formats. *)
Definition dash : char := ch "-".
Definition slash : char := ch "/".

Definition ymd (c : char) : list item :=
  [Group (ch "Y") regex_Y; Literal c; Group (ch "m") regex_m; Literal c;
   Group (ch "d") regex_d].

Definition dmy (c : char) : list item :=
  [Group (ch "d") regex_d; Literal c; Group (ch "m") regex_m; Literal c;
   Group (ch "Y") regex_Y].

Definition text_ymd (c : char) (d : date) : str :=
  pad4 (year d) ++ c :: pad2 (month d) ++ c :: pad2 (day d).

Definition text_dmy (c : char) (d : date) : str :=
  pad2 (day d) ++ c :: pad2 (month d) ++ c :: pad4 (year d).

Definition tag (name : char) (txt : str) (gr : list (char * str) * str) :
  list (char * str) * str :=
  ((name, txt) :: fst gr, snd gr).

End Dates.

(** ** What is left open of the libraries

    Where the behaviour of Python and pandas on the texts at hand is
    fixed, it is written out below.  The rest is a parameter: a [Library]
    says what the numeric cast does with a text that is not a plain
    decimal literal (an exponent, underscores, the spellings of infinity
    and NaN, other digits, or no number at all), whether [read_csv] holds
    as strings a column in which no cell has a character foreign to
    numbers, booleans and missing-value markers, and whether
    [pd.to_datetime] raises on dates outside the years 1678 to 2261.
    Every statement about the cleaning of the sales table holds for all
    of them.  A cast that gives an infinity is not among them. *)
Class Library : Type := {
  cast_other : str -> result (option Q);
  infer_text : list (option str) -> bool;
  convert_other : list (option Dates.date) -> option exn
}.

(** ** Tables: cleaning, merge and derived columns *)

(** Numeric cells; [None] is NaN and absorbs every operation. *)
Module Num.

Definition cell := option Q.

Definition lift2 (f : Q -> Q -> Q) (a b : cell) : cell :=
  match a, b with
  | Some x, Some y => Some (f x y)
  | _, _ => None
  end.

Definition mul : cell -> cell -> cell := lift2 Qmult.
Definition sub : cell -> cell -> cell := lift2 Qminus.

(** Two cells hold the same number, or are both missing. *)
Definition same (a b : cell) : Prop :=
  match a, b with
  | Some x, Some y => Qeq x y
  | None, None => True
  | _, _ => False
  end.

Definition eqb (a b : cell) : bool :=
  match a, b with
  | Some x, Some y => Qeq_bool x y
  | None, None => true
  | _, _ => false
  end.

Definition isna {A} (c : option A) : bool :=
  match c with None => true | Some _ => false end.

Definition fillna {A} (value : option A) (c : option A) : option A :=
  match c with Some a => Some a | None => value end.

Definition pow10 (k : nat) : positive := Nat.iter k (Pos.mul 10) 1%positive.

Fixpoint span_digits (s : str) : str * str :=
  match s with
  | [] => ([], [])
  | c :: s' =>
      if Dates.is_digit c
      then let (ds, rest) := span_digits s' in (c :: ds, rest)
      else ([], s)
  end.

Definition signed (neg : bool) (q : Q) : Q := if neg then Qopp q else q.

(** The value of a plain decimal literal: blanks around it, a sign,
    digits with at most one point, at least one digit.  [None]: the text
    is not of this form. *)
Definition plain_decimal (s : str) : option Q :=
  let s := strip s in
  let '(neg, s) :=
    match s with
    | c :: s' =>
        if N.eqb c (Dates.ch "-") then (true, s')
        else if N.eqb c (Dates.ch "+") then (false, s')
        else (false, s)
    | [] => (false, [])
    end in
  let (ip, r) := span_digits s in
  match r with
  | [] =>
      if is_empty ip then None
      else Some (signed neg (inject_Z (Z.of_N (Dates.int_of ip))))
  | c :: fp =>
      if N.eqb c (Dates.ch ".") then
        let (fd, r') := span_digits fp in
        if is_empty r' && negb (is_empty ip && is_empty fd) then
          Some (signed neg
                  (Qmake (Z.of_N (Dates.int_of ip) * Zpos (pow10 (length fd))
                          + Z.of_N (Dates.int_of fd))
                         (pow10 (length fd))))
        else None
      else None
  end.

(** [float(s)]: the value of a plain decimal literal; on any other text,
    what the library does. *)
Definition to_float {W : Library} (s : str) : result cell :=
  match plain_decimal s with
  | Some q => Ok (Some q)
  | None => cast_other s
  end.

(** Insertion sort, ascending. *)
Fixpoint insert (x : Q) (l : list Q) : list Q :=
  match l with
  | [] => [x]
  | y :: l' => if Qle_bool x y then x :: l else y :: insert x l'
  end.

Definition sort (l : list Q) : list Q := fold_right insert [] l.

Fixpoint present (cells : list cell) : list Q :=
  match cells with
  | [] => []
  | Some x :: cs => x :: present cs
  | None :: cs => present cs
  end.

(** [Series.median()]: NaN is skipped; the middle value, or the mean of
    the two middle values; NaN when nothing is left. *)
Definition median (cells : list cell) : cell :=
  let vs := sort (present cells) in
  let n := length vs in
  if Nat.eqb n 0 then None
  else if Nat.odd n then nth_error vs (n / 2)
  else lift2 (fun a b => Qdiv (Qplus a b) (inject_Z 2))
             (nth_error vs (n / 2 - 1)) (nth_error vs (n / 2)).

End Num.

Definition option_eq_dec {A} (dec : forall a b : A, {a = b} + {a <> b})
  (x y : option A) : {x = y} + {x <> y}.
Proof. decide equality. Defined.

Definition str_eq_dec : forall a b : str, {a = b} + {a <> b} :=
  list_eq_dec N.eq_dec.

Definition pair_eq_dec {A B} (da : forall a b : A, {a = b} + {a <> b})
  (db : forall a b : B, {a = b} + {a <> b}) (x y : A * B) : {x = y} + {x <> y}.
Proof. decide equality. Defined.

Set Implicit Arguments.

(** The sales table as read, and after cleaning (lines 47-62). *)
Module Sales.

Record raw (Id : Type) : Type := Raw {
  raw_order_id : option Id;
  raw_product_name : option str;
  raw_category : option str;
  raw_price : option str;
  raw_quantity : Num.cell;
  raw_order_date : option str;
  raw_customer_id : option Id;
  raw_customer_email : option str
}.

Record row (Id : Type) : Type := Row {
  order_id : option Id;
  product_name : option str;
  category : option str;
  price : Num.cell;
  quantity : Num.cell;
  order_date : option Dates.date;
  customer_id : option Id;
  customer_email : option str;
  revenue : Num.cell
}.

End Sales.

Module Products.

Record row : Type := Row {
  product_name : option str;
  category : option str;
  cost_price : Num.cell
}.

End Products.

(** The customers table as read, and after cleaning (lines 66-78). *)
Module Customers.

Record raw (Id : Type) : Type := Raw {
  raw_customer_id : option Id;
  raw_name : option str;
  raw_age : Num.cell;
  raw_city : option str;
  raw_country : option str
}.

Record row (Id : Type) : Type := Row {
  customer_id : option Id;
  name : option str;
  age : Num.cell;
  city : option str;
  country : option str;
  age_group : option str
}.

End Customers.

(** A row of [merged_data]: the sales row with the matched product and
    customer; a side without a match is missing as a whole. *)
Module Merged.

Record row (Id : Type) : Type := Row {
  sale : Sales.row Id;
  product : option Products.row;
  customer : option (Customers.row Id)
}.

Definition price {Id} (r : row Id) : Num.cell := Sales.price (sale r).
Definition quantity {Id} (r : row Id) : Num.cell := Sales.quantity (sale r).
Definition revenue {Id} (r : row Id) : Num.cell := Sales.revenue (sale r).

Definition cost_price {Id} (r : row Id) : Num.cell :=
  match product r with
  | Some p => Products.cost_price p
  | None => None
  end.

Definition age {Id} (r : row Id) : Num.cell :=
  match customer r with
  | Some c => Customers.age c
  | None => None
  end.

(** Line 97. *)
Definition profit {Id} (r : row Id) : Num.cell :=
  Num.mul (Num.sub (price r) (cost_price r)) (quantity r).

End Merged.

Unset Implicit Arguments.

Module Frames.

(** [Series.str.strip()]: a missing cell stays missing. *)
Definition str_strip (c : option str) : option str := option_map strip c.

(** Line 48: [.str.replace(r'[$,€]', '', regex=True)]. *)
Definition currency_symbol (c : char) : bool :=
  N.eqb c 36 || N.eqb c 44 || N.eqb c 8364.

Definition strip_currency (s : str) : str :=
  filter (fun c => negb (currency_symbol c)) s.

(** Line 48, one cell: the symbols are dropped and the rest is cast; a
    missing cell stays missing. *)
Definition clean_price {W : Library} (c : option str) : result Num.cell :=
  match c with
  | None => Ok None
  | Some s => Num.to_float (strip_currency s)
  end.

(** A character that occurs in no number, boolean or missing-value marker
    of a CSV file. *)
Definition numeric_or_missing_char (c : char) : bool :=
  Dates.is_digit c || isspace c
  || existsb (N.eqb c) (lit "+-.#/<>abcdefijlnoqrstuxyABCDEFIJLNOQRSTUXY").

(** A cell that [read_csv] can only read as a string. *)
Definition surely_text (cell : option str) : bool :=
  match cell with
  | Some s => existsb (fun c => negb (numeric_or_missing_char c)) s
  | None => false
  end.

(** The [.str] accessor of a column: [AttributeError] unless the column
    holds strings. *)
Definition str_accessor {W : Library} (column : list (option str)) : result unit :=
  if existsb surely_text column || infer_text column then Ok tt
  else Raise AttributeError.

(** Line 48: [.astype(float)], cell after cell. *)
Fixpoint cast_column {W : Library} (cells : list (option str)) : result (list Num.cell) :=
  match cells with
  | [] => Ok []
  | c :: cs =>
      (price <- clean_price c ;; prices <- cast_column cs ;;
       Ok (price :: prices))%result
  end.

(** Line 59: [.apply(parse_date)]. *)
Fixpoint parse_dates (cells : list (option str)) : result (list (option Dates.date)) :=
  match cells with
  | [] => Ok []
  | c :: cs =>
      (date <- Dates.parse_date c ;; dates <- parse_dates cs ;;
       Ok (date :: dates))%result
  end.

(** Line 60: [pd.to_datetime]: dates of the years 1678 to 2261 are
    representable whatever the resolution; a missing date stays missing. *)
Definition representable (d : option Dates.date) : bool :=
  match d with
  | Some d => ((1678 <=? Dates.year d) && (Dates.year d <=? 2261))%N
  | None => true
  end.

Definition to_datetime {W : Library} (dates : list (option Dates.date))
  : result (list (option Dates.date)) :=
  if forallb representable dates then Ok dates
  else match convert_other dates with
       | None => Ok dates
       | Some e => Raise e
       end.

(** Line 61: [.str.strip().replace('', np.nan)]. *)
Definition clean_email (c : option str) : option str :=
  match str_strip c with
  | Some [] => None
  | other => other
  end.

(** [Series.replace(mapping)]: a cell equal to a key becomes its value. *)
Fixpoint lookup (key : str) (mapping : list (str * option str)) : option (option str) :=
  match mapping with
  | [] => None
  | (k, v) :: rest => if str_eq_dec key k then Some v else lookup key rest
  end.

Definition replace_values (mapping : list (str * option str)) (c : option str) : option str :=
  match c with
  | None => None
  | Some s =>
      match lookup s mapping with
      | Some v => v
      | None => Some s
      end
  end.

(** Lines 67-70. *)
Definition country_aliases : list (str * option str) :=
  [(lit "United Kingdom", Some (lit "UK")); (lit "", None)].

Definition canonical_country (c : option str) : option str :=
  replace_values country_aliases c.

(** Lines 73-78: [pd.cut] on half-open bins. *)
Definition age_bins : list (Q * Q * string) :=
  [(0, 20, "<20"); (20, 30, "20-29"); (30, 40, "30-39"); (40, 50, "40-49");
   (50, 100, "50+")]%Q%string.

Fixpoint cut (bins : list (Q * Q * string)) (x : Q) : option str :=
  match bins with
  | [] => None
  | (lo, hi, label) :: rest =>
      if Qle_bool lo x && negb (Qle_bool hi x) then Some (lit label)
      else cut rest x
  end.

Definition age_group_of (age : Num.cell) : option str :=
  match age with
  | Some x => cut age_bins x
  | None => None
  end.

(** A left join: every left row, in order, with each right row of equal
    key, or with nothing when no right row has its key. *)
Definition left_join {L R K : Type} (key_eq_dec : forall a b : K, {a = b} + {a <> b})
  (left_key : L -> K) (right_key : R -> K)
  (left : list L) (right : list R) : list (L * option R) :=
  flat_map (fun l =>
              match filter (fun r => if key_eq_dec (left_key l) (right_key r)
                                     then true else false) right with
              | [] => [(l, None)]
              | matches => map (fun r => (l, Some r)) matches
              end) left.

Section Tables.

Context {W : Library}.
Variable Id : Type.
Variable Id_eq_dec : forall a b : Id, {a = b} + {a <> b}.

(** A sales row with its cleaned price and date (lines 47-62). *)
Definition cleaned_sale (r : Sales.raw Id) (price : Num.cell) (date : option Dates.date)
  : Sales.row Id :=
  {| Sales.order_id := Sales.raw_order_id r;
     Sales.product_name := str_strip (Sales.raw_product_name r);
     Sales.category := Sales.raw_category r;
     Sales.price := price;
     Sales.quantity := Sales.raw_quantity r;
     Sales.order_date := date;
     Sales.customer_id := Sales.raw_customer_id r;
     Sales.customer_email := clean_email (Sales.raw_customer_email r);
     Sales.revenue := Num.mul price (Sales.raw_quantity r) |}.

(** The table of the rows with their new columns, row by row. *)
Fixpoint assemble (rows : list (Sales.raw Id)) (prices : list Num.cell)
  (dates : list (option Dates.date)) : list (Sales.row Id) :=
  match rows, prices, dates with
  | r :: rows', price :: prices', date :: dates' =>
      cleaned_sale r price date :: assemble rows' prices' dates'
  | _, _, _ => []
  end.

(** Sales, lines 47-62, column by column in the order of the lines: the
    first statement that raises ends the cleaning. *)
Definition clean_sales (rows : list (Sales.raw Id)) : result (list (Sales.row Id)) :=
  (_ <- str_accessor (map (@Sales.raw_product_name Id) rows) ;;
   _ <- str_accessor (map (@Sales.raw_price Id) rows) ;;
   prices <- cast_column (map (@Sales.raw_price Id) rows) ;;
   dates <- parse_dates (map (@Sales.raw_order_date Id) rows) ;;
   dates <- to_datetime dates ;;
   _ <- str_accessor (map (@Sales.raw_customer_email Id) rows) ;;
   Ok (assemble rows prices dates))%result.

(** Products, line 64. *)
Definition clean_product (p : Products.row) : Products.row :=
  {| Products.product_name := str_strip (Products.product_name p);
     Products.category := Products.category p;
     Products.cost_price := Products.cost_price p |}.

Definition clean_products (products : list Products.row) : result (list Products.row) :=
  (_ <- str_accessor (map Products.product_name products) ;;
   Ok (map clean_product products))%result.

(** Line 66: [drop_duplicates(subset='customer_id', keep='first')]; missing
    ids count as equal to each other. *)
Fixpoint drop_duplicates_from (seen : list (option Id)) (rows : list (Customers.raw Id))
  : list (Customers.raw Id) :=
  match rows with
  | [] => []
  | r :: rs =>
      if in_dec (option_eq_dec Id_eq_dec) (Customers.raw_customer_id r) seen
      then drop_duplicates_from seen rs
      else r :: drop_duplicates_from (Customers.raw_customer_id r :: seen) rs
  end.

Definition drop_duplicates (rows : list (Customers.raw Id)) : list (Customers.raw Id) :=
  drop_duplicates_from [] rows.

(** Line 71, on the deduplicated table. *)
Definition median_age (deduplicated : list (Customers.raw Id)) : Num.cell :=
  Num.median (map (@Customers.raw_age Id) deduplicated).

(** Lines 67-78 on one row of the deduplicated table. *)
Definition clean_customer (median_age : Num.cell) (r : Customers.raw Id) : Customers.row Id :=
  let age := Num.fillna median_age (Customers.raw_age r) in
  {| Customers.customer_id := Customers.raw_customer_id r;
     Customers.name := Customers.raw_name r;
     Customers.age := age;
     Customers.city := Customers.raw_city r;
     Customers.country := canonical_country (Customers.raw_country r);
     Customers.age_group := age_group_of age |}.

(** Customers, lines 66-78. *)
Definition clean_customers (rows : list (Customers.raw Id)) : list (Customers.row Id) :=
  let deduplicated := drop_duplicates rows in
  map (clean_customer (median_age deduplicated)) deduplicated.

(** Lines 85-95. *)
Definition product_key_of_sale (s : Sales.row Id) : option str * option str :=
  (Sales.product_name s, Sales.category s).

Definition product_key (p : Products.row) : option str * option str :=
  (Products.product_name p, Products.category p).

Definition product_key_eq_dec :
  forall a b : option str * option str, {a = b} + {a <> b} :=
  pair_eq_dec (option_eq_dec str_eq_dec) (option_eq_dec str_eq_dec).

Definition merged_data (sales : list (Sales.row Id)) (products : list Products.row)
  (customers : list (Customers.row Id)) : list (Merged.row Id) :=
  map (fun spc : Sales.row Id * option Products.row * option (Customers.row Id) =>
         {| Merged.sale := fst (fst spc);
            Merged.product := snd (fst spc);
            Merged.customer := snd spc |})
      (left_join (option_eq_dec Id_eq_dec)
         (fun sp : Sales.row Id * option Products.row => Sales.customer_id (fst sp))
         (@Customers.customer_id Id)
         (left_join product_key_eq_dec product_key_of_sale product_key sales products)
         customers).

(** Lines 145-146: the two counts of the cleaning report that are taken
    on the cleaned customers table. *)
Definition opt_str_eqb (a b : option str) : bool :=
  if option_eq_dec str_eq_dec a b then true else false.

Definition customer_eqb (a b : Customers.row Id) : bool :=
  (if option_eq_dec Id_eq_dec (Customers.customer_id a) (Customers.customer_id b)
   then true else false)
  && opt_str_eqb (Customers.name a) (Customers.name b)
  && Num.eqb (Customers.age a) (Customers.age b)
  && opt_str_eqb (Customers.city a) (Customers.city b)
  && opt_str_eqb (Customers.country a) (Customers.country b)
  && opt_str_eqb (Customers.age_group a) (Customers.age_group b).

(** [DataFrame.duplicated()]: a row is marked when an earlier row has the
    same value in every column. *)
Fixpoint duplicated_from (earlier : list (Customers.row Id)) (rows : list (Customers.row Id))
  : list bool :=
  match rows with
  | [] => []
  | r :: rs => existsb (customer_eqb r) earlier :: duplicated_from (r :: earlier) rs
  end.

Definition duplicated (rows : list (Customers.row Id)) : list bool :=
  duplicated_from [] rows.

Definition sum (marks : list bool) : nat := length (filter (fun b => b) marks).

Definition duplicate_records (customers : list (Customers.row Id)) : nat :=
  sum (duplicated customers).

Definition missing_age_values (customers : list (Customers.row Id)) : nat :=
  sum (map (fun c => Num.isna (Customers.age c)) customers).

End Tables.

Arguments cleaned_sale {Id} r price date.
Arguments assemble {Id} rows prices dates.
Arguments clean_sales {W Id} rows.
Arguments clean_products {W} products.
Arguments drop_duplicates_from {Id} Id_eq_dec seen rows.
Arguments drop_duplicates {Id} Id_eq_dec rows.
Arguments median_age {Id} deduplicated.
Arguments clean_customer {Id} median_age r.
Arguments clean_customers {Id} Id_eq_dec rows.
Arguments product_key_of_sale {Id} s.
Arguments merged_data {Id} Id_eq_dec sales products customers.
Arguments customer_eqb {Id} Id_eq_dec a b.
Arguments duplicated_from {Id} Id_eq_dec earlier rows.
Arguments duplicated {Id} Id_eq_dec rows.
Arguments duplicate_records {Id} Id_eq_dec customers.
Arguments missing_age_values {Id} customers.

(** A library that raises wherever its behaviour is left open, for the
    worked examples. *)
Definition strict_library : Library :=
  {| cast_other := fun _ => Raise ValueError;
     infer_text := fun _ => false;
     convert_other := fun _ => Some (OtherException (lit "OutOfBoundsDatetime")) |}.

(** A customers row with a numeric id, for the worked examples. *)
Definition customer (id : N) (name : string) (age : Num.cell) (country : string)
  : Customers.raw N :=
  Customers.Raw (Some id) (Some (lit name)) age (Some (lit "Leeds")) (Some (lit country)).

End Frames.

(** ** The script: stages, output and the error boundary *)

Module Script.

(** What a run does that can be seen from outside. *)
Inductive event : Type :=
| Stdout (text : str)
| MakeDirs (path : str)
| ToCsv (path : str).

(** How a computation ends: with a value, with an exception on its way
    up, or with [SystemExit] from [exit()]. *)
Inductive status (A : Type) : Type :=
| Returned (a : A)
| Raised (e : exn)
| Exited.

Arguments Returned {A} a.
Arguments Raised {A} e.
Arguments Exited {A}.

(** A computation: the events so far, and how it ended. *)
Definition M (A : Type) : Type := list event * status A.

Definition ret {A} (a : A) : M A := ([], Returned a).

Definition mbind {A B} (m : M A) (k : A -> M B) : M B :=
  match m with
  | (t, Returned a) => let (t', s) := k a in (t ++ t', s)
  | (t, Raised e) => (t, Raised e)
  | (t, Exited) => (t, Exited)
  end.

Definition print (text : str) : M unit := ([Stdout text], Returned tt).

Definition lift {A} (r : result A) : M A :=
  match r with
  | Ok a => ret a
  | Raise e => ([], Raised e)
  end.

Definition exit {A} : M A := ([], Exited).

(** [try: body except Exception as e: handler(e)]. *)
Definition try_except {A} (body : M A) (handler : exn -> M A) : M A :=
  match body with
  | (t, Raised e) => let (t', s) := handler e in (t ++ t', s)
  | other => other
  end.

Declare Scope script_scope.
Delimit Scope script_scope with script.
Notation "x <- m ;; k" := (mbind m (fun x => k))
  (at level 61, m at next level, right associativity) : script_scope.
Notation "m ;; k" := (mbind m (fun _ => k))
  (at level 61, right associativity) : script_scope.

Definition path_join (parts : list str) : str := join (Dates.ch "/") parts.

Section Run.

(** The world the script runs in: the files, pandas' parser, and the
    stages after loading, each of which may raise. *)
Variable Table Cleaned MergedData Analysis Reports : Type.
Variable current_dir : str.
Variable read_text : str -> result str.
Variable read_csv : str -> result Table.
Variable str_of_exception : exn -> str.
Variable clean : Table * Table * Table -> result Cleaned.
Variable merge : Cleaned -> result MergedData.
Variable analyse : MergedData -> result Analysis.
Variable build_reports : Cleaned -> MergedData -> Analysis -> result Reports.
Variable makedirs : str -> result unit.
Variable to_csv : Reports -> str -> result unit.

(** Lines 7-27. *)
Definition load_csv (filepath : str) : result Table :=
  (content <- read_text filepath ;;
   text <- LoadCsv.repaired_text content ;;
   read_csv text)%result.

(** [pd.read_csv(path)]. *)
Definition pd_read_csv (filepath : str) : result Table :=
  (content <- read_text filepath ;; read_csv content)%result.

Definition data_dir : str := path_join [current_dir; lit ".."; lit "data"].
Definition output_dir : str := path_join [current_dir; lit ".."; lit "reports"].

(** Lines 35-39: the body of the [try]. *)
Definition load_all : M (Table * Table * Table) :=
  (sales <- lift (load_csv (path_join [data_dir; lit "project1_sales_data.csv"])) ;;
   products <- lift (pd_read_csv (path_join [data_dir; lit "project1_product_data.csv"])) ;;
   customers <- lift (pd_read_csv (path_join [data_dir; lit "project1_customer_data.csv"])) ;;
   print (lit "Data loaded successfully!") ;;
   ret (sales, products, customers))%script.

(** Lines 40-42: the handler. *)
Definition load_failed (e : exn) : M (Table * Table * Table) :=
  (print (lit "Error loading data: " ++ str_of_exception e) ;; exit)%script.

Definition write (reports : Reports) (file : string) : M unit :=
  let path := path_join [output_dir; lit file] in
  (([ToCsv path], Returned tt) ;; lift (to_csv reports path))%script.

(** Lines 45-197: everything after the [try]; nothing here is caught. *)
Definition after_loading (tables : Table * Table * Table) : M unit :=
  (print (newline :: lit "Cleaning data...") ;;
   cleaned <- lift (clean tables) ;;
   print (newline :: lit "Merging datasets...") ;;
   merged <- lift (merge cleaned) ;;
   print (newline :: lit "Analyzing data...") ;;
   analysis <- lift (analyse merged) ;;
   print (newline :: lit "Generating reports...") ;;
   reports <- lift (build_reports cleaned merged analysis) ;;
   ([MakeDirs output_dir], Returned tt) ;;
   lift (makedirs output_dir) ;;
   write reports "data_cleaning_report.csv" ;;
   write reports "business_insights.csv" ;;
   write reports "cleaned_merged_data.csv" ;;
   print (newline :: lit "Analysis complete!") ;;
   print (lit "Reports saved to: " ++ output_dir))%script.

(** The whole script. *)
Definition main : M unit :=
  (print (lit "Loading data files...") ;;
   tables <- try_except load_all load_failed ;;
   after_loading tables)%script.

Definition is_write (e : event) : bool :=
  match e with
  | Stdout _ => false
  | MakeDirs _ | ToCsv _ => true
  end.

(** One of the three loads raises [e] (the ones before it returned). *)
Definition loading_raises (e : exn) : Prop :=
  load_csv (path_join [data_dir; lit "project1_sales_data.csv"]) = Raise e \/
  (exists s,
      load_csv (path_join [data_dir; lit "project1_sales_data.csv"]) = Ok s /\
      (pd_read_csv (path_join [data_dir; lit "project1_product_data.csv"]) = Raise e \/
       exists p,
         pd_read_csv (path_join [data_dir; lit "project1_product_data.csv"]) = Ok p /\
         pd_read_csv (path_join [data_dir; lit "project1_customer_data.csv"]) = Raise e)).

(** The three loads return [tables]. *)
Definition loading_returns (tables : Table * Table * Table) : Prop :=
  load_csv (path_join [data_dir; lit "project1_sales_data.csv"]) = Ok (fst (fst tables)) /\
  pd_read_csv (path_join [data_dir; lit "project1_product_data.csv"]) = Ok (snd (fst tables)) /\
  pd_read_csv (path_join [data_dir; lit "project1_customer_data.csv"]) = Ok (snd tables).

(** The three report files are written in this order; the first write
    that raises does so with [e]. *)
Definition writing_raises (reports : Reports) (e : exn) : Prop :=
  makedirs output_dir = Raise e \/
  (makedirs output_dir = Ok tt /\
   (to_csv reports (path_join [output_dir; lit "data_cleaning_report.csv"]) = Raise e \/
    (to_csv reports (path_join [output_dir; lit "data_cleaning_report.csv"]) = Ok tt /\
     (to_csv reports (path_join [output_dir; lit "business_insights.csv"]) = Raise e \/
      (to_csv reports (path_join [output_dir; lit "business_insights.csv"]) = Ok tt /\
       to_csv reports (path_join [output_dir; lit "cleaned_merged_data.csv"]) = Raise e))))).

(** A stage after loading raises [e] (the ones before it returned). *)
Definition later_stage_raises (tables : Table * Table * Table) (e : exn) : Prop :=
  clean tables = Raise e \/
  (exists c,
      clean tables = Ok c /\
      (merge c = Raise e \/
       exists m,
         merge c = Ok m /\
         (analyse m = Raise e \/
          exists a,
            analyse m = Ok a /\
            (build_reports c m a = Raise e \/
             exists r, build_reports c m a = Ok r /\ writing_raises r e)))).

End Run.

Arguments load_csv {Table} read_text read_csv filepath.
Arguments pd_read_csv {Table} read_text read_csv filepath.
Arguments load_all {Table} current_dir read_text read_csv.
Arguments write {Reports} current_dir to_csv reports file.
Arguments after_loading {Table Cleaned MergedData Analysis Reports}
  current_dir clean merge analyse build_reports makedirs to_csv tables.
Arguments loading_raises {Table} current_dir read_text read_csv e.
Arguments loading_returns {Table} current_dir read_text read_csv tables.
Arguments writing_raises {Reports} current_dir makedirs to_csv reports e.
Arguments later_stage_raises {Table Cleaned MergedData Analysis Reports}
  current_dir clean merge analyse build_reports makedirs to_csv tables e.
Arguments main {Table Cleaned MergedData Analysis Reports}
  current_dir read_text read_csv str_of_exception clean merge analyse
  build_reports makedirs to_csv.

End Script.

(** ** Further parts of the script *)

(** Dates written with or without the leading zero of day and month. *)
Module DatesPlain.

Definition field (padded : bool) (n : N) : str :=
  if padded || (10 <=? n)%N then Dates.pad2 n else [Dates.digit_char n].

Definition text_ymd (pad_m pad_d : bool) (c : char) (d : Dates.date) : str :=
  Dates.pad4 (Dates.year d)
  ++ c :: field pad_m (Dates.month d) ++ c :: field pad_d (Dates.day d).

Definition text_dmy (pad_m pad_d : bool) (c : char) (d : Dates.date) : str :=
  field pad_d (Dates.day d)
  ++ c :: field pad_m (Dates.month d) ++ c :: Dates.pad4 (Dates.year d).

(** The text of a date in one of the four formats of [parse_date]. *)
Definition write (pad_m pad_d : bool) (fmt : nat) (d : Dates.date) : str :=
  match fmt with
  | 0 => text_ymd pad_m pad_d Dates.dash d
  | 1 => text_dmy pad_m pad_d Dates.slash d
  | 2 => text_dmy pad_m pad_d Dates.dash d
  | _ => text_ymd pad_m pad_d Dates.slash d
  end.

End DatesPlain.

(** Figures of the two reports that are sums and counts over one table. *)
Module Report.

(** [Series.sum()]: NaN is skipped; an empty sum is 0. *)
Definition series_sum (cells : list Num.cell) : Q :=
  fold_left Qplus (Num.present cells) (inject_Z 0).

(** Line 176: [merged_data['revenue'].sum()]. *)
Definition total_revenue {Id} (merged : list (Merged.row Id)) : Q :=
  series_sum (map (@Merged.revenue Id) merged).

(** [sales['revenue'].sum()], the same sum before the merge. *)
Definition sales_revenue {Id} (sales : list (Sales.row Id)) : Q :=
  series_sum (map (@Sales.revenue Id) sales).

(** [series == text]: a missing cell compares unequal. *)
Definition cell_is (text : str) (c : option str) : bool :=
  match c with
  | Some s => if str_eq_dec s text then true else false
  | None => false
  end.

(** Line 148: [(customers['country'] == 'United Kingdom').sum()]. *)
Definition inconsistent_country_names {Id} (customers : list (Customers.row Id)) : nat :=
  Frames.sum (map (fun c => cell_is (lit "United Kingdom") (Customers.country c)) customers).


End Report.

(** A world in which every file holds the text "a,b" and every stage but,
    possibly, the merge returns at once. *)
Module Worlds.

Definition quiet_world_main (merge : unit -> result unit) : Script.M unit :=
  Script.main (lit "/srv/scripts") (fun _ => Ok (lit "a,b")) (fun _ => Ok tt)
    (fun _ => []) (fun _ : unit * unit * unit => Ok tt) merge (fun _ => Ok tt)
    (fun _ _ _ => Ok tt) (fun _ => Ok tt) (fun _ _ => Ok tt).

End Worlds.

(** * Properties *)

(** ** Strings: split, count, join *)

Section StringFacts.

Variable sep : char.

Lemma split_not_nil (s : str) : split sep s <> [].
Proof.
  destruct s as [|c s]; simpl; [discriminate|].
  destruct (N.eqb c sep); [discriminate|].
  destruct (split sep s); discriminate.
Qed.

Lemma split_cons_other (c : char) (s : str) :
  N.eqb c sep = false ->
  exists p ps, split sep s = p :: ps /\ split sep (c :: s) = (c :: p) :: ps.
Proof.
  intros E. simpl. rewrite E.
  destruct (split sep s) as [|p ps] eqn:S; [now apply split_not_nil in S|].
  now exists p, ps.
Qed.

Lemma length_split (s : str) : length (split sep s) = S (count sep s).
Proof.
  induction s as [|c s IH]; simpl; [reflexivity|].
  destruct (N.eqb c sep); simpl; [now rewrite IH|].
  destruct (split sep s); simpl in *; [discriminate|exact IH].
Qed.

Lemma join_cons (p : str) (ps : list str) :
  ps <> [] -> join sep (p :: ps) = p ++ sep :: join sep ps.
Proof. destruct ps; [congruence|reflexivity]. Qed.

Lemma join_split (s : str) : join sep (split sep s) = s.
Proof.
  induction s as [|c s IH]; [reflexivity|].
  destruct (N.eqb c sep) eqn:E.
  - simpl split. rewrite E. rewrite join_cons by apply split_not_nil.
    apply N.eqb_eq in E. subst c. simpl. now rewrite IH.
  - destruct (split_cons_other c s E) as (p & ps & S1 & S2).
    rewrite S2. rewrite S1 in IH. destruct ps as [|q ps].
    + simpl in *. now rewrite IH.
    + simpl in *. now rewrite IH.
Qed.

(** Joining the first [n] parts with the join of the others is the join of
    all parts, as soon as there are more than [n] parts. *)
Lemma join_collapse_tail (n : nat) (ps : list str) :
  n < length ps ->
  join sep (firstn n ps ++ [join sep (skipn n ps)]) = join sep ps.
Proof.
  revert ps. induction n as [|n IH]; intros ps L.
  - reflexivity.
  - destruct ps as [|p ps]; simpl in L; [lia|].
    assert (L' : n < length ps) by lia.
    cbn [firstn skipn app]. rewrite join_cons.
    + rewrite (IH ps L'). symmetry. apply join_cons.
      destruct ps; simpl in L'; [lia|discriminate].
    + destruct (firstn n ps); discriminate.
Qed.

End StringFacts.

Lemma lstrip_nil_all_space (s : str) :
  lstrip s = [] -> Forall (fun c => isspace c = true) s.
Proof.
  induction s as [|c s IH]; simpl; [constructor|].
  destruct (isspace c) eqn:E; [|discriminate].
  intros H. constructor; auto.
Qed.

Lemma lstrip_cases (s : str) :
  lstrip s = [] \/ exists c t, lstrip s = c :: t /\ isspace c = false.
Proof.
  induction s as [|c s IH]; simpl; [now left|].
  destruct (isspace c) eqn:E; [exact IH|].
  right. now exists c, s.
Qed.

Lemma strip_nil_all_space (s : str) :
  strip s = [] -> Forall (fun c => isspace c = true) s.
Proof.
  unfold strip, rstrip. intros H.
  assert (H1 : lstrip (rev (lstrip s)) = []).
  { rewrite <- (rev_involutive (lstrip (rev (lstrip s)))), H. reflexivity. }
  apply lstrip_nil_all_space in H1.
  apply lstrip_nil_all_space.
  destruct (lstrip_cases s) as [E|(c & t & E & Hc)]; [exact E|].
  rewrite E in H1. rewrite Forall_forall in H1.
  specialize (H1 c). rewrite <- in_rev in H1.
  rewrite H1 in Hc by (now left). discriminate.
Qed.

Lemma all_space_no_comma (s : str) :
  Forall (fun c => isspace c = true) s -> count comma s = 0.
Proof.
  induction 1 as [|c s Hc _ IH]; simpl; [reflexivity|].
  destruct (N.eqb c comma) eqn:E; [|exact IH].
  apply N.eqb_eq in E. subst c. discriminate Hc.
Qed.

(** ** Row repair loader *)

Module LoadCsvFacts.
Import LoadCsv.

Lemma fixed_line_of_nine (line : str) :
  length (split comma line) = 9 -> fixed_line line = line.
Proof.
  intros L. unfold fixed_line, fixed_fields.
  rewrite join_collapse_tail by lia. apply join_split.
Qed.

Lemma blank_not_accepted (line : str) :
  is_empty (strip line) = true -> accepted line = false.
Proof.
  intros B. destruct (strip line) eqn:E; [|discriminate].
  apply strip_nil_all_space, all_space_no_comma in E.
  unfold accepted. now rewrite length_split, E.
Qed.

Lemma step_filter (acc : list str) (line : str) :
  step acc line = acc ++ (if accepted line then [line] else []).
Proof.
  unfold step.
  destruct (is_empty (strip line)) eqn:B.
  - rewrite (blank_not_accepted line B). now rewrite app_nil_r.
  - unfold accepted. destruct (Nat.eqb (count comma line) 7); [reflexivity|].
    cbn [orb]. destruct (Nat.eqb (length (split comma line)) 9) eqn:L.
    + apply Nat.eqb_eq in L. now rewrite fixed_line_of_nine.
    + now rewrite app_nil_r.
Qed.

Lemma fold_step_filter (data acc : list str) :
  fold_left step data acc = acc ++ filter accepted data.
Proof.
  revert acc. induction data as [|l data IH]; intros acc; simpl.
  - now rewrite app_nil_r.
  - rewrite IH, step_filter, <- app_assoc. f_equal.
    destruct (accepted l); reflexivity.
Qed.

Lemma good_lines_filter (content : str) :
  exists header,
    hd_error (split newline (fixup content)) = Some header /\
    good_lines content = Ok (header :: filter accepted (data_lines content)).
Proof.
  unfold good_lines, data_lines.
  destruct (split newline (fixup content)) as [|h data] eqn:S.
  - now apply split_not_nil in S.
  - exists h. split; [reflexivity|]. now rewrite fold_step_filter.
Qed.


(** C9. A data line that splits into exactly nine comma-separated parts
    is left character for character unchanged by the repair: joining
    [parts[:7]] with the comma-join of [parts[7:]] gives the line back. *)
Theorem repair_of_nine_parts_is_identity (line : str) :
  length (split comma line) = 9 ->
  join comma (firstn 7 (split comma line)
              ++ [join comma (skipn 7 (split comma line))]) = line.
Proof. exact (fixed_line_of_nine line). Qed.

Lemma repair_of_nine_parts_is_identity_witness :
  let line := lit "17,Lamp,Home,$12.50,3,2024-02-11,C9,ann@shop.org,x" in
  length (split comma line) = 9 /\
  join comma (firstn 7 (split comma line)
              ++ [join comma (skipn 7 (split comma line))]) = line.
Proof.
  split; [reflexivity|].
  apply (repair_of_nine_parts_is_identity
           (lit "17,Lamp,Home,$12.50,3,2024-02-11,C9,ann@shop.org,x")).
  reflexivity.
Defined.

(** C2. The header line is kept whatever it is, the loop keeps exactly the
    data lines of an accepted shape (seven commas, or nine parts), in
    order, and raises nothing: a data line of neither shape is in no kept
    line. *)
Theorem header_kept_and_misfits_dropped (content : str) :
  exists header kept,
    hd_error (split newline (fixup content)) = Some header /\
    good_lines content = Ok (header :: kept) /\
    kept = filter accepted (data_lines content) /\
    (forall line, accepted line = false -> ~ In line kept).
Proof.
  destruct (good_lines_filter content) as (h & H1 & H2).
  exists h, (filter accepted (data_lines content)).
  repeat split; auto.
  intros line A I. apply filter_In in I. destruct I as [_ I]. congruence.
Qed.





End LoadCsvFacts.

(** ** Date parsing *)

Module DatesFacts.
Import Dates.

Lemma N_below_Forall (P : N -> Prop) (b : nat) :
  Forall P (map N.of_nat (seq 0 b)) -> forall n, (n < N.of_nat b)%N -> P n.
Proof.
  intros F n L. rewrite Forall_forall in F. apply F.
  apply in_map_iff. exists (N.to_nat n). split; [apply N2Nat.id|].
  apply in_seq. lia.
Qed.

(** Case analysis on a number below a literal bound. *)
Ltac each_below n b :=
  let L := fresh "L" in
  assert (L : (n < N.of_nat b)%N) by (cbn; lia);
  repeat match goal with
         | H : context [n] |- _ => tryif constr_eq H L then fail else revert H
         end;
  revert L; pattern n;
  match goal with
  | |- (fun k => _ -> @?P k) n => revert n; refine (N_below_Forall P b _)
  end;
  repeat (apply Forall_cons; [|]); [..|apply Forall_nil]; cbn [N.of_nat Pos.of_succ_nat Pos.succ].

Ltac div_mod_lia := zify; Z.to_euclidean_division_equations; lia.

Lemma is_digit_digit_char (k : N) : (k < 10)%N -> is_digit (digit_char k) = true.
Proof.
  intros L. unfold is_digit, digit_char.
  apply andb_true_intro. split; apply N.leb_le; lia.
Qed.

Lemma is_digit_inv (c : char) :
  is_digit c = true -> exists k, (k < 10)%N /\ c = digit_char k.
Proof.
  unfold is_digit, digit_char. intros H. apply andb_prop in H.
  destruct H as [A B]. apply N.leb_le in A, B.
  exists (c - 48)%N. lia.
Qed.

Lemma pad4_digits (y : N) :
  (y < 10000)%N ->
  (y / 1000 < 10 /\ y / 100 mod 10 < 10 /\ y / 10 mod 10 < 10 /\ y mod 10 < 10)%N.
Proof. intros L. div_mod_lia. Qed.

Lemma int_of_pad4 (y : N) : (y < 10000)%N -> int_of (pad4 y) = y.
Proof.
  intros L. destruct (pad4_digits y L) as (A & B & C & D).
  unfold int_of, pad4. cbn [fold_left].
  rewrite !is_digit_digit_char by assumption.
  unfold digit_char. div_mod_lia.
Qed.

Lemma int_of_pad2 (n : N) : (n < 100)%N -> int_of (pad2 n) = n.
Proof.
  intros L. unfold int_of, pad2. cbn [fold_left].
  rewrite !is_digit_digit_char by div_mod_lia.
  unfold digit_char. div_mod_lia.
Qed.

Lemma group_Y_first (y : N) (items : list item) (s : str) :
  (y < 10000)%N ->
  match_items (Group (ch "Y") regex_Y :: items) (pad4 y ++ s)
  = map (tag (ch "Y") (pad4 y)) (match_items items s).
Proof.
  intros L. destruct (pad4_digits y L) as (A & B & C & D).
  cbn [match_items]. unfold match_group, regex_Y, pad4.
  cbn [flat_map app match_classes cls_match].
  rewrite !is_digit_digit_char by assumption.
  simpl flat_map. rewrite app_nil_r. reflexivity.
Qed.

Lemma group_m_then_literal (c : char) (m : N) (items : list item) (s : str) :
  c = dash \/ c = slash -> (1 <= m <= 12)%N ->
  match_items (Group (ch "m") regex_m :: Literal c :: items) (pad2 m ++ c :: s)
  = map (tag (ch "m") (pad2 m)) (match_items items s).
Proof.
  intros Hc Hm. each_below m 13%nat; intros Hm; try lia;
    destruct Hc; subst c; cbn; now rewrite !app_nil_r.
Qed.

Lemma group_d_then_literal (c : char) (d : N) (items : list item) (s : str) :
  c = dash \/ c = slash -> (1 <= d <= 31)%N ->
  match_items (Group (ch "d") regex_d :: Literal c :: items) (pad2 d ++ c :: s)
  = map (tag (ch "d") (pad2 d)) (match_items items s).
Proof.
  intros Hc Hd. each_below d 32%nat; intros Hd; try lia;
    destruct Hc; subst c; cbn; now rewrite !app_nil_r.
Qed.

Lemma group_d_last (d : N) :
  (1 <= d <= 31)%N ->
  exists more,
    match_items [Group (ch "d") regex_d] (pad2 d)
    = ([(ch "d", pad2 d)], []) :: more.
Proof.
  intros Hd. each_below d 32%nat; intros Hd; try lia;
    cbn; eexists; reflexivity.
Qed.

Lemma group_Y_fails (a b c : char) (items : list item) (s : str) :
  is_digit c = false ->
  match_items (Group (ch "Y") regex_Y :: items) (a :: b :: c :: s) = [].
Proof.
  intros Hc. cbn [match_items]. unfold match_group, regex_Y.
  cbn [flat_map match_classes cls_match].
  destruct (is_digit a), (is_digit b); rewrite ?Hc; reflexivity.
Qed.

Lemma digit_not_separator (e : char) :
  is_digit e = true -> N.eqb e dash = false /\ N.eqb e slash = false.
Proof.
  intros H. apply is_digit_inv in H. destruct H as (k & L & ->).
  change dash with 45%N. change slash with 47%N. unfold digit_char.
  split; apply N.eqb_neq; lia.
Qed.

Lemma group_d_then_literal_on_digits (c a b e : char) (items : list item) (s : str) :
  c = dash \/ c = slash ->
  is_digit a = true -> is_digit b = true -> is_digit e = true ->
  match_items (Group (ch "d") regex_d :: Literal c :: items) (a :: b :: e :: s) = [].
Proof.
  intros Hc Ha Hb He.
  apply is_digit_inv in Ha, Hb.
  destruct Ha as (i & Li & ->), Hb as (j & Lj & ->).
  destruct (digit_not_separator e He) as [E1 E2].
  change dash with 45%N in *. change slash with 47%N in *.
  each_below i 10%nat; intros _; each_below j 10%nat; intros _;
    destruct Hc; subst c; cbn; rewrite ?E1, ?E2; reflexivity.
Qed.

Lemma group_d_then_other_literal (c c' : char) (d : N) (items : list item) (s : str) :
  c = dash /\ c' = slash \/ c = slash /\ c' = dash ->
  (1 <= d <= 31)%N ->
  match_items (Group (ch "d") regex_d :: Literal c' :: items) (pad2 d ++ c :: s) = [].
Proof.
  intros Hc Hd. each_below d 32%nat; intros Hd; try lia;
    destruct Hc as [[-> ->]|[-> ->]]; reflexivity.
Qed.

Lemma days_in_month_le (y m : N) : (days_in_month y m <= 31)%N.
Proof.
  unfold days_in_month. destruct m as [|p]; [lia|].
  repeat (destruct p as [p|p|]; try (destruct (is_leap y); lia)).
Qed.

Lemma valid_date_bounds (y m d : N) :
  valid_date y m d = true ->
  (y < 10000 /\ 1 <= m <= 12 /\ 1 <= d <= 31)%N.
Proof.
  unfold valid_date. intros H.
  repeat (apply andb_prop in H; destruct H as [H ?]).
  repeat match goal with H : (_ <=? _)%N = true |- _ => apply N.leb_le in H end.
  pose proof (days_in_month_le y m). lia.
Qed.

Lemma pad2_digits (n : N) :
  (n < 100)%N ->
  exists a b, pad2 n = [a; b] /\ is_digit a = true /\ is_digit b = true.
Proof.
  intros L. eexists _, _. split; [reflexivity|].
  split; apply is_digit_digit_char; div_mod_lia.
Qed.

Lemma pad4_shape (y : N) :
  (y < 10000)%N ->
  exists a b c e, pad4 y = [a; b; c; e] /\
    is_digit a = true /\ is_digit b = true /\ is_digit c = true.
Proof.
  intros L. destruct (pad4_digits y L) as (A & B & C & D).
  eexists _, _, _, _. split; [reflexivity|].
  repeat split; apply is_digit_digit_char; assumption.
Qed.

(** The year-first and the day-first patterns and texts. *)
Lemma compile_formats :
  map compile formats
  = [Some (ymd dash); Some (dmy slash); Some (dmy dash); Some (ymd slash)].
Proof. reflexivity. Qed.

Lemma date_of_match_ymd (y m d : N) more :
  valid_date y m d = true ->
  date_of_match
    (tag (ch "Y") (pad4 y) (tag (ch "m") (pad2 m) ([(ch "d", pad2 d)], [])) :: more)
  = Ok (Date y m d).
Proof.
  intros V. destruct (valid_date_bounds y m d V) as (Ly & Lm & Ld).
  unfold date_of_match, tag, group_int. cbn [fst snd is_empty group].
  cbn - [int_of pad4 pad2].
  rewrite int_of_pad4, !int_of_pad2 by lia. now rewrite V.
Qed.

Lemma date_of_match_dmy (y m d : N) more :
  valid_date y m d = true ->
  date_of_match
    (tag (ch "d") (pad2 d) (tag (ch "m") (pad2 m) ([(ch "Y", pad4 y)], [])) :: more)
  = Ok (Date y m d).
Proof.
  intros V. destruct (valid_date_bounds y m d V) as (Ly & Lm & Ld).
  unfold date_of_match, tag, group_int. cbn [fst snd is_empty group].
  cbn - [int_of pad4 pad2].
  rewrite int_of_pad4, !int_of_pad2 by lia. now rewrite V.
Qed.

Lemma match_ymd_own (c : char) (y m d : N) :
  c = dash \/ c = slash -> valid_date y m d = true ->
  date_of_match (match_items (ymd c) (text_ymd c (Date y m d))) = Ok (Date y m d).
Proof.
  intros Hc V. destruct (valid_date_bounds y m d V) as (Ly & Lm & Ld).
  unfold ymd, text_ymd. cbn [year month day].
  rewrite group_Y_first by exact Ly.
  replace (match_items (Literal c :: Group (ch "m") regex_m :: Literal c :: [Group (ch "d") regex_d])
             (c :: pad2 m ++ c :: pad2 d))
    with (match_items (Group (ch "m") regex_m :: Literal c :: [Group (ch "d") regex_d])
             (pad2 m ++ c :: pad2 d))
    by (cbn [match_items]; now rewrite N.eqb_refl).
  rewrite group_m_then_literal by assumption.
  destruct (group_d_last d Ld) as (more & ->).
  cbn [map]. now apply date_of_match_ymd.
Qed.

Lemma match_dmy_own (c : char) (y m d : N) :
  c = dash \/ c = slash -> valid_date y m d = true ->
  date_of_match (match_items (dmy c) (text_dmy c (Date y m d))) = Ok (Date y m d).
Proof.
  intros Hc V. destruct (valid_date_bounds y m d V) as (Ly & Lm & Ld).
  unfold dmy, text_dmy. cbn [year month day].
  rewrite group_d_then_literal, group_m_then_literal by assumption.
  rewrite <- (app_nil_r (pad4 y)), group_Y_first by exact Ly.
  cbn [match_items map]. now apply date_of_match_dmy.
Qed.

Lemma separator_not_digit (c : char) :
  c = dash \/ c = slash -> is_digit c = false.
Proof. intros [->| ->]; reflexivity. Qed.

Lemma match_ymd_on_dmy (c c' : char) (y m d : N) :
  c = dash \/ c = slash -> valid_date y m d = true ->
  match_items (ymd c') (text_dmy c (Date y m d)) = [].
Proof.
  intros Hc V. destruct (valid_date_bounds y m d V) as (Ly & Lm & Ld).
  unfold ymd, text_dmy. cbn [year month day].
  destruct (pad2_digits d) as (a & b & -> & _); [lia|].
  apply group_Y_fails, separator_not_digit, Hc.
Qed.

Lemma match_dmy_on_other_dmy (c c' : char) (y m d : N) :
  c = dash /\ c' = slash \/ c = slash /\ c' = dash ->
  valid_date y m d = true ->
  match_items (dmy c') (text_dmy c (Date y m d)) = [].
Proof.
  intros Hc V. destruct (valid_date_bounds y m d V) as (Ly & Lm & Ld).
  unfold dmy, text_dmy. cbn [year month day].
  now apply group_d_then_other_literal.
Qed.

Lemma match_ymd_on_other_ymd (c c' : char) (y m d : N) :
  N.eqb c c' = false -> valid_date y m d = true ->
  match_items (ymd c') (text_ymd c (Date y m d)) = [].
Proof.
  intros Hc V. destruct (valid_date_bounds y m d V) as (Ly & Lm & Ld).
  unfold ymd, text_ymd. cbn [year month day].
  rewrite group_Y_first by exact Ly.
  cbn [match_items]. now rewrite Hc.
Qed.

Lemma match_dmy_on_ymd (c c' : char) (y m d : N) :
  c' = dash \/ c' = slash -> valid_date y m d = true ->
  match_items (dmy c') (text_ymd c (Date y m d)) = [].
Proof.
  intros Hc V. destruct (valid_date_bounds y m d V) as (Ly & Lm & Ld).
  unfold dmy, text_ymd. cbn [year month day].
  destruct (pad4_shape y Ly) as (a & b & e & x & -> & Ha & Hb & He).
  cbn [app]. now apply group_d_then_literal_on_digits.
Qed.

Lemma write_date_formats (dt : date) :
  write_date (lit "%Y-%m-%d") dt = text_ymd dash dt /\
  write_date (lit "%d/%m/%Y") dt = text_dmy slash dt /\
  write_date (lit "%d-%m-%Y") dt = text_dmy dash dt /\
  write_date (lit "%Y/%m/%d") dt = text_ymd slash dt.
Proof. repeat split. Qed.

Lemma strptime_only_ValueError (s fmt : str) (e : exn) :
  strptime s fmt = Raise e -> e = ValueError.
Proof.
  unfold strptime, date_of_match.
  destruct (compile fmt) as [items|]; [|congruence].
  destruct (match_items items s) as [|[groups rest] more]; [congruence|].
  destruct (is_empty rest); [|congruence].
  destruct (valid_date _ _ _); congruence.
Qed.

Lemma try_formats_cons (fmt : str) (fmts : list str) (s : str) :
  try_formats (fmt :: fmts) s =
  match strptime s fmt with
  | Ok d => Ok (Some d)
  | Raise _ => try_formats fmts s
  end.
Proof.
  cbn [try_formats]. destruct (strptime s fmt) as [d|e] eqn:E; [reflexivity|].
  apply strptime_only_ValueError in E. now subst e.
Qed.

Lemma strptime_format (s : str) :
  strptime s (lit "%Y-%m-%d") = date_of_match (match_items (ymd dash) s) /\
  strptime s (lit "%d/%m/%Y") = date_of_match (match_items (dmy slash) s) /\
  strptime s (lit "%d-%m-%Y") = date_of_match (match_items (dmy dash) s) /\
  strptime s (lit "%Y/%m/%d") = date_of_match (match_items (ymd slash) s).
Proof. repeat split. Qed.

(** C3. [parse_date] never raises; its result is the date of the first of
    the four formats, in the order written, that [strptime] accepts, and
    missing when none does; and a valid date written out in any of the
    four formats is read back as that same date. *)
Theorem parse_date_first_format_wins (cell : option str) (fmt : str) (dt : date) :
  parse_date cell =
    Ok (match strptime (to_str cell) (lit "%Y-%m-%d") with
        | Ok d => Some d
        | Raise _ =>
        match strptime (to_str cell) (lit "%d/%m/%Y") with
        | Ok d => Some d
        | Raise _ =>
        match strptime (to_str cell) (lit "%d-%m-%Y") with
        | Ok d => Some d
        | Raise _ =>
        match strptime (to_str cell) (lit "%Y/%m/%d") with
        | Ok d => Some d
        | Raise _ => None
        end end end end) /\
  (valid_date (year dt) (month dt) (day dt) = true ->
   In fmt formats ->
   parse_date (Some (write_date fmt dt)) = Ok (Some dt)).
Proof.
  split.
  - unfold parse_date, formats. rewrite !try_formats_cons. cbn [try_formats].
    repeat match goal with |- context [strptime ?s ?f] => destruct (strptime s f) end;
      reflexivity.
  - destruct dt as [y m d]. cbn [year month day]. intros V I.
    destruct (write_date_formats (Date y m d)) as (W1 & W2 & W3 & W4).
    unfold parse_date, to_str, formats. rewrite !try_formats_cons.
    unfold formats in I. cbn [In] in I.
    destruct I as [<-|[<-|[<-|[<-|[]]]]].
    + rewrite W1. destruct (strptime_format (text_ymd dash (Date y m d))) as (-> & _).
      rewrite match_ymd_own; auto.
    + rewrite W2.
      destruct (strptime_format (text_dmy slash (Date y m d))) as (-> & -> & _).
      rewrite match_ymd_on_dmy, match_dmy_own; auto.
    + rewrite W3.
      destruct (strptime_format (text_dmy dash (Date y m d))) as (-> & -> & -> & _).
      rewrite match_ymd_on_dmy, match_dmy_on_other_dmy, match_dmy_own; auto.
    + rewrite W4.
      destruct (strptime_format (text_ymd slash (Date y m d))) as (-> & -> & -> & ->).
      rewrite match_ymd_on_other_ymd, !match_dmy_on_ymd, match_ymd_own; auto.
Qed.

Lemma parse_date_first_format_wins_witness :
  let cell := Some (lit "05/03/2024") in
  let dt := Date 2024 3 5 in
  let fmt := lit "%d-%m-%Y" in
  (valid_date (year dt) (month dt) (day dt) = true /\ In fmt formats) /\
  parse_date cell = Ok (Some dt) /\
  parse_date (Some (write_date fmt dt)) = Ok (Some dt).
Proof.
  split; [split; [reflexivity | right; right; left; reflexivity]|].
  destruct (parse_date_first_format_wins (Some (lit "05/03/2024"))
              (lit "%d-%m-%Y") (Date 2024 3 5)) as [H1 H2].
  split; [exact H1 | apply H2; [reflexivity | right; right; left; reflexivity]].
Defined.

End DatesFacts.

(** ** Tables *)

Module FramesFacts.
Import Frames.

Section LeftJoin.

Context {L R K : Type}.
Variable key_eq_dec : forall a b : K, {a = b} + {a <> b}.
Variable left_key : L -> K.
Variable right_key : R -> K.

Let matching (l : L) (r : R) : bool :=
  if key_eq_dec (left_key l) (right_key r) then true else false.

Lemma matching_unique (k : K) (right : list R) :
  NoDup (map right_key right) ->
  length (filter (fun r => if key_eq_dec k (right_key r) then true else false) right) <= 1.
Proof.
  induction right as [|r right IH]; intros N; simpl; [lia|].
  inversion N as [|? ? Hnot N']; subst.
  destruct (key_eq_dec k (right_key r)) as [E|E]; [|auto].
  simpl. enough (filter (fun r0 => if key_eq_dec k (right_key r0) then true else false) right = [])
    as -> by (simpl; lia).
  destruct (filter _ right) as [|x xs] eqn:F; [reflexivity|].
  exfalso. apply Hnot.
  assert (I : In x (x :: xs)) by now left.
  rewrite <- F in I. apply filter_In in I. destruct I as [I M].
  destruct (key_eq_dec k (right_key x)) as [E'|]; [|discriminate].
  rewrite <- E, E'. now apply in_map.
Qed.

(** With unique right keys, a left join has exactly the left rows, in order. *)
Lemma left_join_fst (left : list L) (right : list R) :
  NoDup (map right_key right) ->
  map fst (left_join key_eq_dec left_key right_key left right) = left.
Proof.
  intros N. unfold left_join.
  induction left as [|l left IH]; [reflexivity|].
  cbn [flat_map]. rewrite map_app, IH. 
  pose proof (matching_unique (left_key l) right N) as U.
  destruct (filter _ right) as [|x [|y ys]]; simpl in *; [reflexivity|reflexivity|lia].
Qed.

(** What a left join pairs a left row with. *)
Lemma left_join_In (left : list L) (right : list R) (l : L) (o : option R) :
  In (l, o) (left_join key_eq_dec left_key right_key left right) ->
  In l left /\
  match o with
  | Some r => In r right /\ right_key r = left_key l
  | None => forall r, In r right -> right_key r <> left_key l
  end.
Proof.
  unfold left_join. intros I. apply in_flat_map in I.
  destruct I as (l' & Il & I).
  destruct (filter _ right) as [|x xs] eqn:F.
  - destruct I as [I|[]]. inversion I; subst. split; [exact Il|].
    intros r Ir E.
    assert (In r (filter (fun r0 => if key_eq_dec (left_key l) (right_key r0) then true else false) right)).
    { apply filter_In. split; [exact Ir|].
      destruct (key_eq_dec (left_key l) (right_key r)); congruence. }
    rewrite F in H. exact H.
  - apply in_map_iff in I. destruct I as (r & E & Ir). inversion E; subst.
    split; [exact Il|]. rewrite <- F in Ir. apply filter_In in Ir.
    destruct Ir as [Ir M]. split; [exact Ir|].
    destruct (key_eq_dec (left_key l) (right_key r)); congruence.
Qed.

End LeftJoin.

Lemma insert_length (x : Q) (l : list Q) :
  length (Num.insert x l) = S (length l).
Proof.
  induction l as [|y l IH]; simpl; [reflexivity|].
  destruct (Qle_bool x y); simpl; [reflexivity|now rewrite IH].
Qed.

Lemma sort_length (l : list Q) : length (Num.sort l) = length l.
Proof.
  induction l as [|x l IH]; simpl; [reflexivity|].
  now rewrite insert_length, IH.
Qed.

Lemma present_In (cells : list Num.cell) (x : Q) :
  In (Some x) cells -> In x (Num.present cells).
Proof.
  induction cells as [|[y|] cells IH]; simpl; [tauto| |].
  - intros [E|I]; [left; congruence|right; auto].
  - intros [E|I]; [discriminate|auto].
Qed.

Lemma nth_error_below {A} (l : list A) (i : nat) :
  i < length l -> exists a, nth_error l i = Some a.
Proof.
  intros L. destruct (nth_error l i) as [a|] eqn:E; [now exists a|].
  apply nth_error_None in E. lia.
Qed.

(** The median of a column with a value in it is a value. *)
Lemma median_some (cells : list Num.cell) (x : Q) :
  In (Some x) cells -> exists m, Num.median cells = Some m.
Proof.
  intros I. apply present_In in I. unfold Num.median.
  set (vs := Num.sort (Num.present cells)).
  assert (L : 0 < length vs).
  { unfold vs. rewrite sort_length. destruct (Num.present cells); [destruct I|simpl; lia]. }
  destruct (Nat.eqb (length vs) 0) eqn:Z; [apply Nat.eqb_eq in Z; lia|].
  assert (H2 : length vs / 2 < length vs) by (apply Nat.div_lt; lia).
  destruct (Nat.odd (length vs)).
  - now apply nth_error_below.
  - destruct (nth_error_below vs (length vs / 2 - 1)) as (a & ->); [lia|].
    destruct (nth_error_below vs (length vs / 2)) as (b & ->); [lia|].
    simpl. eauto.
Qed.

Lemma sum_none (marks : list bool) :
  Forall (fun b => b = false) marks -> sum marks = 0.
Proof.
  unfold sum. induction 1 as [|b marks -> _ IH]; simpl; auto.
Qed.

(** C6. The country remap sends "United Kingdom" to "UK" and the empty
    string to a missing value, leaves every other cell as it is, and
    applying it twice is the same as applying it once. *)
Theorem canonical_country_idempotent (c : option str) :
  canonical_country (Some (lit "United Kingdom")) = Some (lit "UK") /\
  canonical_country (Some (lit "")) = None /\
  (c <> Some (lit "United Kingdom") -> c <> Some (lit "") ->
   canonical_country c = c) /\
  canonical_country (canonical_country c) = canonical_country c.
Proof.
  split; [reflexivity|]. split; [reflexivity|].
  unfold canonical_country, replace_values, country_aliases.
  destruct c as [s|]; [|split; [reflexivity|reflexivity]].
  cbn [lookup].
  destruct (str_eq_dec s (lit "United Kingdom")) as [E1|E1].
  - split; [intros H; subst; congruence|reflexivity].
  - destruct (str_eq_dec s (lit "")) as [E2|E2].
    + split; [intros _ H; subst; congruence|reflexivity].
    + split; [reflexivity|]. cbn [lookup].
      destruct (str_eq_dec s (lit "United Kingdom")); [contradiction|].
      destruct (str_eq_dec s (lit "")); [contradiction|reflexivity].
Qed.

Lemma canonical_country_idempotent_witness :
  let c := Some (lit "France") in
  (c <> Some (lit "United Kingdom") /\ c <> Some (lit "")) /\
  canonical_country c = c /\
  canonical_country (canonical_country c) = canonical_country c.
Proof.
  assert (H1 : Some (lit "France") <> Some (lit "United Kingdom")) by discriminate.
  assert (H2 : Some (lit "France") <> Some (lit "")) by discriminate.
  split; [split; assumption|].
  destruct (canonical_country_idempotent (Some (lit "France"))) as (_ & _ & A & B).
  split; [exact (A H1 H2) | exact B].
Defined.

Section TableFacts.

Variable Id : Type.
Variable Id_eq_dec : forall a b : Id, {a = b} + {a <> b}.

Local Abbreviation raw_id := (@Customers.raw_customer_id Id).

Lemma drop_duplicates_from_ids (seen : list (option Id)) (rows : list (Customers.raw Id)) :
  NoDup (map raw_id (drop_duplicates_from Id_eq_dec seen rows)) /\
  forall r, In r (drop_duplicates_from Id_eq_dec seen rows) ->
            In r rows /\ ~ In (raw_id r) seen.
Proof.
  revert seen. induction rows as [|r rows IH]; intros seen; simpl.
  - split; [constructor|intros ? []].
  - destruct (in_dec _ (raw_id r) seen) as [I|I].
    + destruct (IH seen) as [N H]. split; [exact N|].
      intros x Ix. destruct (H x Ix). auto.
    + destruct (IH (raw_id r :: seen)) as [N H]. split.
      * simpl. constructor; [|exact N]. intros C. apply in_map_iff in C.
        destruct C as (x & E & Ix). destruct (H x Ix) as [_ Hx].
        apply Hx. left. now symmetry.
      * intros x [->|Ix]; [auto|]. destruct (H x Ix) as [? Hx].
        split; [auto|]. intros C. apply Hx. now right.
Qed.

(** Deduplication keeps, of the rows with one id, the first. *)
Lemma drop_duplicates_from_first (seen : list (option Id)) (rows : list (Customers.raw Id))
  (r : Customers.raw Id) :
  In r (drop_duplicates_from Id_eq_dec seen rows) <->
  exists before after,
    rows = before ++ r :: after /\
    ~ In (raw_id r) (map raw_id before) /\ ~ In (raw_id r) seen.
Proof.
  revert seen. induction rows as [|x rows IH]; intros seen; simpl.
  - split; [intros []|]. intros (b & a & E & _). destruct b; discriminate.
  - destruct (in_dec _ (raw_id x) seen) as [I|I].
    + rewrite IH. split.
      * intros (b & a & -> & H1 & H2). exists (x :: b), a. split; [reflexivity|].
        split; [|exact H2]. simpl. intros [E|C]; [|auto]. congruence.
      * intros (b & a & E & H1 & H2). destruct b as [|y b].
        -- simpl in E. inversion E; subst. contradiction.
        -- simpl in E. inversion E; subst. exists b, a. split; [reflexivity|].
           split; [|exact H2]. intros C. apply H1. now right.
    + simpl. rewrite IH. split.
      * intros [->|(b & a & -> & H1 & H2)].
        -- exists [], rows. simpl. auto.
        -- exists (x :: b), a. split; [reflexivity|]. simpl in *. split.
           ++ intros [E|C]; [|auto]. apply H2. now left.
           ++ intros C. apply H2. now right.
      * intros (b & a & E & H1 & H2). destruct b as [|y b].
        -- simpl in E. inversion E; subst. now left.
        -- simpl in E. inversion E; subst. right. exists b, a.
           split; [reflexivity|]. simpl in *. split.
           ++ intros C. apply H1. now right.
           ++ intros [E'|C]; [|auto]. apply H1. now left.
Qed.

Lemma clean_customers_ids (raw : list (Customers.raw Id)) :
  map (@Customers.customer_id Id) (clean_customers Id_eq_dec raw)
  = map raw_id (drop_duplicates Id_eq_dec raw).
Proof. unfold clean_customers. rewrite map_map. reflexivity. Qed.

Lemma clean_customers_NoDup (raw : list (Customers.raw Id)) :
  NoDup (map (@Customers.customer_id Id) (clean_customers Id_eq_dec raw)).
Proof.
  rewrite clean_customers_ids. apply drop_duplicates_from_ids.
Qed.

Lemma fillna_some (m : Q) (c : Num.cell) : Num.fillna (Some m) c <> None.
Proof. destruct c; discriminate. Qed.

Lemma dedup_age_gives_median (raw : list (Customers.raw Id)) :
  (exists r, In r (drop_duplicates Id_eq_dec raw) /\ Customers.raw_age r <> None) ->
  exists m, median_age (drop_duplicates Id_eq_dec raw) = Some m.
Proof.
  intros (r & I & A). destruct (Customers.raw_age r) as [x|] eqn:E; [|congruence].
  apply (median_some _ x). rewrite <- E. now apply in_map.
Qed.

Lemma clean_customers_no_missing_age (raw : list (Customers.raw Id)) :
  (exists r, In r (drop_duplicates Id_eq_dec raw) /\ Customers.raw_age r <> None) ->
  Forall (fun c => Customers.age c <> None) (clean_customers Id_eq_dec raw).
Proof.
  intros H. destruct (dedup_age_gives_median raw H) as (m & M).
  unfold clean_customers. rewrite M.
  apply Forall_forall. intros c I. apply in_map_iff in I.
  destruct I as (r & <- & _). cbn. apply fillna_some.
Qed.

(** C5 (amended). Deduplication keeps, for each customer id, the first row
    that has it; the median is the one of the deduplicated table; and when
    a kept row has an age, every missing age is filled with that median
    and no age is left missing. *)
Theorem ages_filled_with_median_after_dedup (raw : list (Customers.raw Id)) :
  (exists r, In r (drop_duplicates Id_eq_dec raw) /\ Customers.raw_age r <> None) ->
  (forall r, In r (drop_duplicates Id_eq_dec raw) <->
             exists before after,
               raw = before ++ r :: after /\ ~ In (raw_id r) (map raw_id before)) /\
  exists m,
    Num.median (map (@Customers.raw_age Id) (drop_duplicates Id_eq_dec raw)) = Some m /\
    map (@Customers.age Id) (clean_customers Id_eq_dec raw)
    = map (fun r => match Customers.raw_age r with
                    | Some a => Some a
                    | None => Some m
                    end) (drop_duplicates Id_eq_dec raw) /\
    Forall (fun c => Customers.age c <> None) (clean_customers Id_eq_dec raw).
Proof.
  intros H. split.
  - intros r. unfold drop_duplicates. rewrite drop_duplicates_from_first.
    split; intros (b & a & E & N); exists b, a; [tauto|].
    split; [tauto|]. split; [tauto|]. intros [].
  - destruct (dedup_age_gives_median raw H) as (m & M).
    exists m. split; [exact M|]. unfold clean_customers. rewrite M. split.
    + rewrite map_map. apply map_ext. intros r. cbn.
      destruct (Customers.raw_age r); reflexivity.
    + rewrite <- M. now apply clean_customers_no_missing_age.
Qed.

Lemma duplicated_from_none (earlier rows : list (Customers.row Id)) :
  NoDup (map (@Customers.customer_id Id) rows) ->
  (forall r, In r rows ->
             ~ In (Customers.customer_id r) (map (@Customers.customer_id Id) earlier)) ->
  Forall (fun b => b = false) (duplicated_from Id_eq_dec earlier rows).
Proof.
  revert earlier. induction rows as [|r rows IH]; intros earlier N H; simpl.
  - constructor.
  - inversion N as [|? ? Hr N']; subst. constructor.
    + destruct (existsb (customer_eqb Id_eq_dec r) earlier) eqn:E; [|reflexivity].
      exfalso. apply existsb_exists in E. destruct E as (x & Ix & E).
      apply (H r); [now left|]. unfold customer_eqb in E.
      destruct (option_eq_dec Id_eq_dec (Customers.customer_id r) (Customers.customer_id x))
        as [Eid|]; [|discriminate E].
      rewrite Eid. now apply in_map.
    + apply IH; [exact N'|]. intros x Ix [E|C].
      * apply Hr. rewrite E. now apply in_map.
      * apply (H x); [now right|exact C].
Qed.

(** C10 (amended). The two counts are taken on the cleaned table: no row
    is counted as a duplicate, for every input; and when a row kept by the
    deduplication has an age, no age is counted as missing. *)
Theorem report_counts_on_cleaned_customers (raw : list (Customers.raw Id)) :
  duplicate_records Id_eq_dec (clean_customers Id_eq_dec raw) = 0 /\
  ((exists r, In r (drop_duplicates Id_eq_dec raw) /\ Customers.raw_age r <> None) ->
   missing_age_values (clean_customers Id_eq_dec raw) = 0).
Proof.
  split.
  - unfold duplicate_records, duplicated. apply sum_none.
    apply duplicated_from_none; [apply clean_customers_NoDup|].
    intros r _ [].
  - intros H. pose proof (clean_customers_no_missing_age raw H) as F.
    unfold missing_age_values. apply sum_none.
    apply Forall_map. eapply Forall_impl; [|exact F].
    intros c Hc. cbn beta in *. destruct (Customers.age c); [reflexivity|congruence].
Qed.

(** Any left join of the script keeps the sales rows it is given, and
    pairs each with a right row of its own key only. *)
Lemma merged_data_sale_In (sales : list (Sales.row Id)) (products : list Products.row)
  (customers : list (Customers.row Id)) (r : Merged.row Id) :
  In r (merged_data Id_eq_dec sales products customers) ->
  In (Merged.sale r) sales /\
  match Merged.product r with
  | Some p => In p products /\ product_key p = product_key_of_sale (Merged.sale r)
  | None => forall p, In p products -> product_key p <> product_key_of_sale (Merged.sale r)
  end /\
  match Merged.customer r with
  | Some c => In c customers /\ Customers.customer_id c = Sales.customer_id (Merged.sale r)
  | None => forall c, In c customers ->
                      Customers.customer_id c <> Sales.customer_id (Merged.sale r)
  end.
Proof.
  unfold merged_data. intros I. apply in_map_iff in I.
  destruct I as ([[s p] c] & <- & I). cbn [Merged.sale Merged.product Merged.customer fst snd].
  apply left_join_In in I. destruct I as [I Hc]. cbn [fst] in Hc.
  apply left_join_In in I. destruct I as [I Hp]. auto.
Qed.

(** C4. With products unique per (product_name, category), and the
    customers as the cleaning leaves them (unique per customer_id), the
    merged table has exactly the sales rows, in order and as many; a side
    is missing in a merged row exactly when no row of that side has the
    sales row's key. *)
Theorem merge_preserves_sales_rows (sales : list (Sales.row Id))
  (products : list Products.row) (raw_customers : list (Customers.raw Id)) :
  NoDup (map product_key products) ->
  let customers := clean_customers Id_eq_dec raw_customers in
  let merged := merged_data Id_eq_dec sales products customers in
  map (@Merged.sale Id) merged = sales /\
  length merged = length sales /\
  forall r, In r merged ->
    match Merged.product r with
    | Some p => In p products /\ product_key p = product_key_of_sale (Merged.sale r)
    | None => forall p, In p products -> product_key p <> product_key_of_sale (Merged.sale r)
    end /\
    match Merged.customer r with
    | Some c => In c customers /\ Customers.customer_id c = Sales.customer_id (Merged.sale r)
    | None => forall c, In c customers ->
                        Customers.customer_id c <> Sales.customer_id (Merged.sale r)
    end.
Proof.
  intros N customers merged.
  assert (E : map (@Merged.sale Id) merged = sales).
  { unfold merged, merged_data. rewrite map_map. cbn [Merged.sale].
    rewrite <- (map_map fst fst).
    rewrite left_join_fst by apply clean_customers_NoDup.
    now apply left_join_fst. }
  split; [exact E|]. split.
  - transitivity (length (map (@Merged.sale Id) merged)).
    + symmetry. apply length_map.
    + now rewrite E.
  - intros r I. now apply merged_data_sale_In in I.
Qed.

Lemma to_datetime_same (W : Library) (dates dates' : list (option Dates.date)) :
  to_datetime dates = Ok dates' -> dates' = dates.
Proof.
  unfold to_datetime. destruct (forallb representable dates); [congruence|].
  destruct (convert_other dates); congruence.
Qed.

(** A cleaning that returns has gone through every statement. *)
Lemma clean_sales_returns (W : Library) (raw : list (Sales.raw Id))
  (sales : list (Sales.row Id)) :
  clean_sales raw = Ok sales ->
  exists prices dates,
    str_accessor (map (@Sales.raw_product_name Id) raw) = Ok tt /\
    str_accessor (map (@Sales.raw_price Id) raw) = Ok tt /\
    cast_column (map (@Sales.raw_price Id) raw) = Ok prices /\
    parse_dates (map (@Sales.raw_order_date Id) raw) = Ok dates /\
    to_datetime dates = Ok dates /\
    str_accessor (map (@Sales.raw_customer_email Id) raw) = Ok tt /\
    sales = assemble raw prices dates.
Proof.
  unfold clean_sales, bind.
  destruct (str_accessor (map _ raw)) as [[]|] eqn:A1; [|discriminate].
  destruct (str_accessor (map (@Sales.raw_price Id) raw)) as [[]|] eqn:A2; [|discriminate].
  destruct (cast_column _) as [prices|] eqn:P; [|discriminate].
  destruct (parse_dates _) as [dates|] eqn:D; [|discriminate].
  destruct (to_datetime dates) as [dates'|] eqn:T; [|discriminate].
  pose proof (to_datetime_same W _ _ T). subst dates'.
  destruct (str_accessor (map (@Sales.raw_customer_email Id) raw)) as [[]|] eqn:A3;
    [|discriminate].
  intros E. inversion E. exists prices, dates. repeat split; assumption.
Qed.

Lemma assemble_revenue (rows : list (Sales.raw Id)) (prices : list Num.cell)
  (dates : list (option Dates.date)) :
  Forall (fun s => Sales.revenue s = Num.mul (Sales.price s) (Sales.quantity s))
         (assemble rows prices dates).
Proof.
  revert prices dates. induction rows as [|r rows IH]; intros prices dates; [constructor|].
  destruct prices as [|p prices]; [constructor|].
  destruct dates as [|d dates]; [constructor|].
  cbn [assemble]. constructor; [reflexivity|apply IH].
Qed.

Lemma clean_sales_revenue (W : Library) (raw : list (Sales.raw Id))
  (sales : list (Sales.row Id)) :
  clean_sales raw = Ok sales ->
  Forall (fun s => Sales.revenue s = Num.mul (Sales.price s) (Sales.quantity s)) sales.
Proof.
  intros C. apply clean_sales_returns in C.
  destruct C as (prices & dates & _ & _ & _ & _ & _ & _ & ->).
  apply assemble_revenue.
Qed.

End TableFacts.

(** C7. Every merged row carries revenue = price x quantity, computed on
    the cleaned price, and profit = (price - cost price) x quantity; a
    sale priced "$10.00" with quantity 2 has revenue 20, and with a
    product of cost price 6 its profit is 8. *)
Theorem revenue_and_profit_of_merged_rows (W : Library) :
  (forall (Id : Type) (Id_eq_dec : forall a b : Id, {a = b} + {a <> b})
          (raw_sales : list (Sales.raw Id)) (sales : list (Sales.row Id))
          (products : list Products.row) (customers : list (Customers.row Id)),
      clean_sales raw_sales = Ok sales ->
      Forall (fun r =>
                Merged.revenue r = Num.mul (Merged.price r) (Merged.quantity r) /\
                Merged.profit r =
                  Num.mul (Num.sub (Merged.price r) (Merged.cost_price r))
                          (Merged.quantity r))
             (merged_data Id_eq_dec sales products customers)) /\
  (let raw_sales :=
     [Sales.Raw (Some 1%N) (Some (lit "Desk ")) (Some (lit "Home"))
        (Some (lit "$10.00")) (Some (inject_Z 2)) (Some (lit "2024-01-05"))
        (Some 7%N) (Some (lit "ann@shop.org"))] in
   let products :=
     [Products.Row (Some (lit "Desk")) (Some (lit "Home")) (Some (inject_Z 6))] in
   exists s r,
     clean_sales raw_sales = Ok [s] /\
     merged_data N.eq_dec [s] products [] = [r] /\
     Num.same (Merged.price r) (Some (inject_Z 10)) /\
     Num.same (Merged.revenue r) (Some (inject_Z 20)) /\
     Num.same (Merged.cost_price r) (Some (inject_Z 6)) /\
     Num.same (Merged.profit r) (Some (inject_Z 8))).
Proof.
  split.
  - intros Id Id_eq_dec raw_sales sales products customers C.
    apply Forall_forall. intros r I.
    apply merged_data_sale_In in I. destruct I as [I _].
    pose proof (clean_sales_revenue Id W raw_sales sales C) as F.
    rewrite Forall_forall in F. split; [|reflexivity].
    unfold Merged.revenue, Merged.price, Merged.quantity. now apply F.
  - cbv zeta. eexists _, _. split; [vm_compute; reflexivity|].
    split; [vm_compute; reflexivity|].
    repeat split; vm_compute; reflexivity.
Qed.

Lemma revenue_and_profit_of_merged_rows_witness :
  let raw_sales :=
    [Sales.Raw (Some 3%N) (Some (lit "Lamp")) (Some (lit "Home"))
       (Some (lit "$1,250.50")) (Some (inject_Z 4)) (Some (lit "11/02/2024"))
       (Some 9%N) (Some (lit "bo@shop.org"))] in
  exists sales,
    clean_sales (W := strict_library) raw_sales = Ok sales /\
    Forall (fun r =>
              Merged.revenue r = Num.mul (Merged.price r) (Merged.quantity r) /\
              Merged.profit r =
                Num.mul (Num.sub (Merged.price r) (Merged.cost_price r))
                        (Merged.quantity r))
           (merged_data N.eq_dec sales [] []).
Proof.
  cbv zeta. eexists. split; [vm_compute; reflexivity|].
  apply (proj1 (revenue_and_profit_of_merged_rows strict_library) N N.eq_dec
           [Sales.Raw (Some 3%N) (Some (lit "Lamp")) (Some (lit "Home"))
              (Some (lit "$1,250.50")) (Some (inject_Z 4)) (Some (lit "11/02/2024"))
              (Some 9%N) (Some (lit "bo@shop.org"))]).
  vm_compute. reflexivity.
Defined.

Lemma merge_preserves_sales_rows_witness :
  let sale (id : N) (name : string) :=
    Sales.Row (Some id) (Some (lit name)) (Some (lit "Home")) (Some (inject_Z 10))
      (Some (inject_Z 2)) None (Some id) None (Some (inject_Z 20)) in
  let sales := [sale 1%N "Desk"%string; sale 2%N "Lamp"%string; sale 1%N "Desk"%string] in
  let products := [Products.Row (Some (lit "Desk")) (Some (lit "Home")) (Some (inject_Z 6))] in
  let raw_customers :=
    [customer 1 "Ann" (Some (inject_Z 30)) "UK"; customer 1 "Ann" None "UK"] in
  NoDup (map product_key products) /\
  length (merged_data N.eq_dec sales products (clean_customers N.eq_dec raw_customers)) = 3.
Proof.
  cbv zeta. split.
  - constructor; [intros []|constructor].
  - refine (proj1 (proj2 (merge_preserves_sales_rows N N.eq_dec _ _ _ _))).
    constructor; [intros []|constructor].
Defined.

Lemma ages_filled_with_median_after_dedup_witness :
  let raw :=
    [customer 1 "Ann" (Some (inject_Z 30)) "UK"; customer 2 "Bo" None "France";
     customer 1 "Ann" None "UK"; customer 3 "Cy" (Some (inject_Z 41)) "United Kingdom"] in
  (exists r, In r (drop_duplicates N.eq_dec raw) /\ Customers.raw_age r <> None) /\
  exists m,
    Num.median (map (@Customers.raw_age N) (drop_duplicates N.eq_dec raw)) = Some m /\
    Forall (fun c => Customers.age c <> None) (clean_customers N.eq_dec raw).
Proof.
  cbv zeta.
  assert (H : exists r,
             In r (drop_duplicates N.eq_dec
                     [customer 1 "Ann" (Some (inject_Z 30)) "UK"; customer 2 "Bo" None "France";
                      customer 1 "Ann" None "UK";
                      customer 3 "Cy" (Some (inject_Z 41)) "United Kingdom"]) /\
             Customers.raw_age r <> None).
  { exists (customer 1 "Ann" (Some (inject_Z 30)) "UK"). split; [left; reflexivity|discriminate]. }
  split; [exact H|].
  destruct (ages_filled_with_median_after_dedup N N.eq_dec _ H) as (_ & m & M & _ & F).
  exists m. split; [exact M | exact F].
Defined.

(** C5 as stated fails: the table has a non-missing age, but only in a row
    that the deduplication drops; the median is missing and the kept row's
    age stays missing. *)
Lemma only_age_in_dropped_duplicate :
  let raw := [customer 1 "Ann" None "UK"; customer 1 "Ann" (Some (inject_Z 30)) "UK"] in
  (exists r, In r raw /\ Customers.raw_age r <> None) /\
  median_age (drop_duplicates N.eq_dec raw) = None /\
  map (@Customers.age N) (clean_customers N.eq_dec raw) = [None].
Proof.
  cbv zeta. split; [|split; reflexivity].
  exists (customer 1 "Ann" (Some (inject_Z 30)) "UK"). split; [right; left; reflexivity|discriminate].
Qed.

Lemma report_counts_on_cleaned_customers_witness :
  let raw :=
    [customer 4 "Di" None "UK"; customer 4 "Di" (Some (inject_Z 52)) "UK";
     customer 5 "Ed" (Some (inject_Z 23)) "Spain"; customer 5 "Ed" (Some (inject_Z 23)) "Spain"] in
  (exists r, In r (drop_duplicates N.eq_dec raw) /\ Customers.raw_age r <> None) /\
  duplicate_records N.eq_dec (clean_customers N.eq_dec raw) = 0 /\
  missing_age_values (clean_customers N.eq_dec raw) = 0.
Proof.
  cbv zeta.
  assert (H : exists r,
             In r (drop_duplicates N.eq_dec
                     [customer 4 "Di" None "UK"; customer 4 "Di" (Some (inject_Z 52)) "UK";
                      customer 5 "Ed" (Some (inject_Z 23)) "Spain";
                      customer 5 "Ed" (Some (inject_Z 23)) "Spain"]) /\
             Customers.raw_age r <> None).
  { exists (customer 5 "Ed" (Some (inject_Z 23)) "Spain").
    split; [right; left; reflexivity|discriminate]. }
  split; [exact H|].
  destruct (report_counts_on_cleaned_customers N N.eq_dec
              [customer 4 "Di" None "UK"; customer 4 "Di" (Some (inject_Z 52)) "UK";
               customer 5 "Ed" (Some (inject_Z 23)) "Spain";
               customer 5 "Ed" (Some (inject_Z 23)) "Spain"]) as [D M].
  split; [exact D | exact (M H)].
Defined.

(** C10 as stated fails: a non-missing age existed in the input, in a
    duplicate row that is dropped, and the report counts one missing age. *)
Lemma missing_age_reported_despite_an_age :
  let raw :=
    [customer 8 "Flo" None "UK"; customer 8 "Flo" (Some (inject_Z 44)) "UK";
     customer 8 "Flo" (Some (inject_Z 44)) "UK"] in
  (exists r, In r raw /\ Customers.raw_age r <> None) /\
  duplicate_records N.eq_dec (clean_customers N.eq_dec raw) = 0 /\
  missing_age_values (clean_customers N.eq_dec raw) = 1.
Proof.
  cbv zeta. split; [|split; reflexivity].
  exists (customer 8 "Flo" (Some (inject_Z 44)) "UK"). split; [right; left; reflexivity|discriminate].
Qed.

End FramesFacts.

(** ** The error boundary *)

Module ScriptFacts.
Import Script.

Section RunFacts.

Variable Table Cleaned MergedData Analysis Reports : Type.
Variable current_dir : str.
Variable read_text : str -> result str.
Variable read_csv : str -> result Table.
Variable str_of_exception : exn -> str.
Variable clean : Table * Table * Table -> result Cleaned.
Variable merge : Cleaned -> result MergedData.
Variable analyse : MergedData -> result Analysis.
Variable build_reports : Cleaned -> MergedData -> Analysis -> result Reports.
Variable makedirs : str -> result unit.
Variable to_csv : Reports -> str -> result unit.

Local Abbreviation the_main :=
  (main current_dir read_text read_csv str_of_exception clean merge analyse
     build_reports makedirs to_csv).
Local Abbreviation the_after_loading :=
  (after_loading current_dir clean merge analyse build_reports makedirs to_csv).
Local Abbreviation the_load_all := (load_all current_dir read_text read_csv).
Local Abbreviation sales_file :=
  (path_join [data_dir current_dir; lit "project1_sales_data.csv"]).
Local Abbreviation products_file :=
  (path_join [data_dir current_dir; lit "project1_product_data.csv"]).
Local Abbreviation customers_file :=
  (path_join [data_dir current_dir; lit "project1_customer_data.csv"]).

(** The body of the [try] prints nothing before it fails, and fails with
    the first exception of the three loads. *)
Lemma load_all_cases :
  match load_csv read_text read_csv sales_file with
  | Raise e => the_load_all = ([], Raised e)
  | Ok s =>
      match pd_read_csv read_text read_csv products_file with
      | Raise e => the_load_all = ([], Raised e)
      | Ok p =>
          match pd_read_csv read_text read_csv customers_file with
          | Raise e => the_load_all = ([], Raised e)
          | Ok c =>
              the_load_all =
                ([Stdout (lit "Data loaded successfully!")], Returned (s, p, c))
          end
      end
  end.
Proof.
  unfold load_all.
  destruct (load_csv _ _ _) as [s|e]; [|reflexivity].
  destruct (pd_read_csv _ _ products_file) as [p|e]; [|reflexivity].
  destruct (pd_read_csv _ _ customers_file) as [c|e]; reflexivity.
Qed.

Lemma main_after_load_failure (e : exn) :
  the_load_all = ([], Raised e) ->
  the_main =
    ([Stdout (lit "Loading data files...");
      Stdout (lit "Error loading data: " ++ str_of_exception e)], Exited).
Proof. unfold main. intros ->. reflexivity. Qed.

Lemma main_after_load_success (tables : Table * Table * Table) :
  the_load_all = ([Stdout (lit "Data loaded successfully!")], Returned tables) ->
  the_main =
    (let (t, s) := the_after_loading tables in
     (Stdout (lit "Loading data files...")
        :: Stdout (lit "Data loaded successfully!") :: t, s)).
Proof.
  unfold main. intros ->. cbn [try_except mbind print app].
  destruct (after_loading _ _ _ _ _ _ _ tables). reflexivity.
Qed.

Lemma loading_raises_load_all (e : exn) :
  loading_raises current_dir read_text read_csv e -> the_load_all = ([], Raised e).
Proof.
  intros H. pose proof load_all_cases as C.
  destruct H as [H|(s & Hs & [H|(p & Hp & H)])].
  - now rewrite H in C.
  - now rewrite Hs, H in C.
  - now rewrite Hs, Hp, H in C.
Qed.

Lemma loading_returns_load_all (tables : Table * Table * Table) :
  loading_returns current_dir read_text read_csv tables ->
  the_load_all = ([Stdout (lit "Data loaded successfully!")], Returned tables).
Proof.
  intros (Hs & Hp & Hc). pose proof load_all_cases as C.
  rewrite Hs, Hp, Hc in C. now destruct tables as [[s p] c].
Qed.

Ltac split_cases :=
  repeat match goal with
         | H : _ \/ _ |- _ => destruct H
         | H : exists _, _ |- _ => destruct H
         | H : _ /\ _ |- _ => destruct H
         end.

Ltac first_failure :=
  first [ congruence
        | left; congruence
        | right; first [ eexists; split; [first [eassumption | reflexivity]|]
                       | split; [first [eassumption | reflexivity]|] ];
          first_failure ].

(** Nothing after the [try] catches: [after_loading] ends with an
    exception exactly when a stage raises it. *)
Lemma after_loading_raises (tables : Table * Table * Table) (e : exn) :
  later_stage_raises current_dir clean merge analyse build_reports makedirs to_csv tables e <->
  snd (the_after_loading tables) = Raised e.
Proof.
  unfold later_stage_raises, writing_raises, after_loading, write. split.
  - intros H. split_cases;
      repeat first [ progress cbn [mbind lift print ret snd fst app]
                   | match goal with
                     | H : ?l = _ |- context [?l] => rewrite H; clear H
                     end ];
      reflexivity.
  - intros H.
    repeat match type of H with
           | context [lift ?r] =>
               let E := fresh "E" in
               destruct r as [?|?] eqn:E; cbn [mbind lift print ret snd fst app] in H
           end;
      repeat match goal with u : unit |- _ => destruct u end;
      first [discriminate H | inversion H; subst; first_failure].
Qed.

(** C8. When one of the three loads raises, the exception is caught: the
    run prints the two lines, stops with [exit()], and does nothing else,
    no directory made and no report written.  When loading returns, an
    exception of any later stage is how the run ends, and the run ends
    with an exception in no other case. *)
Theorem loading_is_the_only_error_boundary (e : exn) (tables : Table * Table * Table) :
  (loading_raises current_dir read_text read_csv e ->
   the_main =
     ([Stdout (lit "Loading data files...");
       Stdout (lit "Error loading data: " ++ str_of_exception e)], Exited) /\
   existsb is_write (fst the_main) = false) /\
  (loading_returns current_dir read_text read_csv tables ->
   (later_stage_raises current_dir clean merge analyse build_reports makedirs to_csv tables e
    <-> snd the_main = Raised e)).
Proof.
  split.
  - intros H. apply loading_raises_load_all, main_after_load_failure in H.
    rewrite H. split; reflexivity.
  - intros H. apply loading_returns_load_all, main_after_load_success in H.
    rewrite H, after_loading_raises.
    destruct (after_loading _ _ _ _ _ _ _ tables). reflexivity.
Qed.

End RunFacts.

Lemma loading_is_the_only_error_boundary_witness :
  let missing_file := OtherException (lit "No such file or directory") in
  let message := fun e => match e with OtherException m => m | _ => [] end in
  let ok := fun _ : unit => Ok tt in
  let run (read_text : str -> result str) (merge : unit -> result unit) :=
    main (lit "/srv/scripts") read_text (fun _ => Ok tt) message
      (fun _ : unit * unit * unit => Ok tt) merge ok (fun _ _ _ => Ok tt)
      (fun _ => Ok tt) (fun _ _ => Ok tt) in
  (loading_raises (lit "/srv/scripts") (fun _ => Raise missing_file)
     (fun _ => Ok tt) missing_file /\
   run (fun _ => Raise missing_file) ok =
     ([Stdout (lit "Loading data files...");
       Stdout (lit "Error loading data: No such file or directory")], Exited)) /\
  (loading_returns (lit "/srv/scripts") (fun _ => Ok (lit "a,b")) (fun _ => Ok tt)
     (tt, tt, tt) /\
   snd (run (fun _ => Ok (lit "a,b")) (fun _ => Raise ValueError)) = Raised ValueError).
Proof.
  cbv zeta. split.
  - assert (H : loading_raises (lit "/srv/scripts")
                  (fun _ : str => @Raise str (OtherException (lit "No such file or directory")))
                  (fun _ : str => Ok tt)
                  (OtherException (lit "No such file or directory"))).
    { left. reflexivity. }
    split; [exact H|].
    exact (proj1 (proj1 (loading_is_the_only_error_boundary unit unit unit unit unit
                    (lit "/srv/scripts") _ _
                    (fun e => match e with OtherException m => m | _ => [] end)
                    (fun _ => Ok tt) (fun _ => Ok tt) (fun _ => Ok tt)
                    (fun _ _ _ => Ok tt) (fun _ => Ok tt) (fun _ _ => Ok tt)
                    (OtherException (lit "No such file or directory")) (tt, tt, tt)) H)).
  - assert (H : loading_returns (lit "/srv/scripts") (fun _ : str => Ok (lit "a,b"))
                  (fun _ : str => Ok tt) (tt, tt, tt)).
    { repeat split. }
    split; [exact H|].
    apply (proj2 (loading_is_the_only_error_boundary unit unit unit unit unit
                    (lit "/srv/scripts") _ _
                    (fun e => match e with OtherException m => m | _ => [] end)
                    (fun _ => Ok tt) (fun _ => Raise ValueError) (fun _ => Ok tt)
                    (fun _ _ _ => Ok tt) (fun _ => Ok tt) (fun _ _ => Ok tt)
                    ValueError (tt, tt, tt)) H).
    right. exists tt. split; [reflexivity|]. left. reflexivity.
Defined.

End ScriptFacts.

(** ** More on strings and the loader *)

Module LoaderMore.
Import LoadCsv LoadCsvFacts.

Section SplitJoin.

Variable sep : char.

Lemma split_without_sep (p : str) : count sep p = 0 -> split sep p = [p].
Proof.
  induction p as [|c p IH]; simpl; [reflexivity|].
  destruct (N.eqb c sep); [discriminate|]. intros H. now rewrite IH.
Qed.

Lemma split_app_sep (p s : str) :
  count sep p = 0 -> split sep (p ++ sep :: s) = p :: split sep s.
Proof.
  induction p as [|c p IH]; simpl.
  - now rewrite N.eqb_refl.
  - destruct (N.eqb c sep); [discriminate|]. intros H. now rewrite IH.
Qed.

Lemma split_parts_without_sep (s : str) :
  Forall (fun p => count sep p = 0) (split sep s).
Proof.
  induction s as [|c s IH]; simpl.
  - repeat constructor.
  - destruct (N.eqb c sep) eqn:E; [constructor; [reflexivity|exact IH]|].
    destruct (split sep s) as [|p ps]; [repeat constructor; simpl; now rewrite E|].
    inversion IH; subst. constructor; [simpl; now rewrite E|assumption].
Qed.

Lemma split_join (ps : list str) :
  ps <> [] -> Forall (fun p => count sep p = 0) ps ->
  split sep (join sep ps) = ps.
Proof.
  induction ps as [|p ps IH]; [congruence|]. intros _ F.
  inversion F as [|? ? Hp F']; subst.
  destruct ps as [|q ps].
  - simpl. now apply split_without_sep.
  - rewrite join_cons by discriminate. rewrite split_app_sep by exact Hp.
    f_equal. apply IH; [discriminate|exact F'].
Qed.

End SplitJoin.

Lemma repaired_text_split (content : str) :
  exists lines text,
    good_lines content = Ok lines /\
    repaired_text content = Ok text /\
    split newline text = lines /\
    Forall (fun l => count newline l = 0) lines.
Proof.
  destruct (good_lines_filter content) as (h & H1 & H2).
  pose proof (split_parts_without_sep newline (fixup content)) as F.
  assert (Fl : Forall (fun l => count newline l = 0)
                 (h :: filter accepted (data_lines content))).
  { unfold data_lines in *. destruct (split newline (fixup content)) as [|x data];
      [discriminate|]. simpl in H1. inversion H1; subst. inversion F; subst.
    constructor; [assumption|]. apply Forall_forall. intros l I.
    apply filter_In in I. destruct I as [I _]. simpl in I.
    rewrite Forall_forall in H4. now apply H4. }
  exists (h :: filter accepted (data_lines content)), 
         (join newline (h :: filter accepted (data_lines content))).
  split; [exact H2|]. split; [unfold repaired_text; now rewrite H2|].
  split; [apply split_join; [discriminate|exact Fl] | exact Fl].
Qed.

(** X1. The text handed to [pd.read_csv] has exactly the kept lines as
    its lines: splitting it at the newlines gives them back. *)
Theorem repaired_text_lines (content : str) :
  exists lines text,
    good_lines content = Ok lines /\
    repaired_text content = Ok text /\
    split newline text = lines /\
    Forall (fun l => count newline l = 0) lines.
Proof. exact (repaired_text_split content). Qed.

Lemma startswith_app (p s : str) :
  startswith p s = true -> exists post, s = p ++ post.
Proof.
  revert s. induction p as [|a p IH]; intros s; simpl.
  - intros _. now exists s.
  - destruct s as [|c s]; [discriminate|]. intros H.
    apply andb_prop in H. destruct H as [E H]. apply N.eqb_eq in E. subst c.
    destruct (IH s H) as (post & ->). now exists post.
Qed.

Lemma replace_absent (old new s : str) :
  (forall pre post, s <> pre ++ old ++ post) -> replace old new s = s.
Proof.
  unfold replace. induction s as [|c s IH]; intros H; [reflexivity|].
  cbn [replace_from]. destruct (startswith old (c :: s)) eqn:E.
  - apply startswith_app in E. destruct E as (post & E).
    exfalso. apply (H [] post). exact E.
  - f_equal. apply IH. intros pre post E'. apply (H (c :: pre) post).
    now rewrite E'.
Qed.

(** X2. The literal fix-up changes nothing in a text that does not
    contain [bob.wilson@,]: the loader then works on the lines of the file
    as they are. *)
Theorem fixup_without_the_literal (content : str) :
  (forall pre post, content <> pre ++ lit "bob.wilson@," ++ post) ->
  fixup content = content /\
  data_lines content = tl (split newline content).
Proof.
  intros H. assert (E : fixup content = content) by now apply replace_absent.
  split; [exact E|]. unfold data_lines. now rewrite E.
Qed.

Lemma fixup_without_the_literal_witness :
  let content := lit "id,name" in
  (forall pre post, content <> pre ++ lit "bob.wilson@," ++ post) /\
  fixup content = content /\
  data_lines content = tl (split newline content).
Proof.
  assert (H : forall pre post, lit "id,name" <> pre ++ lit "bob.wilson@," ++ post).
  { intros pre post E. apply (f_equal (@length char)) in E.
    rewrite !length_app in E. simpl in E. lia. }
  split; [exact H|]. exact (fixup_without_the_literal (lit "id,name") H).
Defined.

Lemma replace_from_skip (old new p s : str) :
  replace_from old new (length p) (p ++ s) = replace_from old new 0 s.
Proof.
  induction p as [|c p IH]; [reflexivity|]. simpl. exact IH.
Qed.

Lemma startswith_self (p s : str) : startswith p (p ++ s) = true.
Proof.
  induction p as [|a p IH]; [reflexivity|]. simpl. now rewrite N.eqb_refl.
Qed.

(** X3. The fix-up works from left to right: at an occurrence of
    [bob.wilson@,] it writes [bob.wilson@company.com] and goes on after the
    occurrence, so the comma that ended the address is gone; elsewhere it
    copies the character. *)
Theorem fixup_left_to_right (c : char) (s : str) :
  fixup (lit "bob.wilson@," ++ s) = lit "bob.wilson@company.com" ++ fixup s /\
  count comma (fixup (lit "bob.wilson@," ++ s)) = count comma (fixup s) /\
  (startswith (lit "bob.wilson@,") (c :: s) = false -> fixup (c :: s) = c :: fixup s).
Proof.
  assert (E : fixup (lit "bob.wilson@," ++ s) = lit "bob.wilson@company.com" ++ fixup s).
  { unfold fixup, replace.
    change (lit "bob.wilson@," ++ s) with (98%N :: (tl (lit "bob.wilson@,") ++ s)).
    cbn [replace_from].
    change (98%N :: tl (lit "bob.wilson@,") ++ s) with (lit "bob.wilson@," ++ s).
    rewrite startswith_self.
    change (length (lit "bob.wilson@,") - 1) with (length (tl (lit "bob.wilson@,"))).
    now rewrite replace_from_skip. }
  split; [exact E|]. split.
  - rewrite E. reflexivity.
  - intros H. unfold fixup, replace. cbn [replace_from]. now rewrite H.
Qed.

Lemma fixup_left_to_right_witness :
  let c := 55%N in
  let s := lit ",bob.wilson@,UK" in
  startswith (lit "bob.wilson@,") (c :: s) = false /\
  fixup (c :: s) = c :: fixup s.
Proof.
  split; [reflexivity|].
  apply (proj2 (proj2 (fixup_left_to_right 55%N (lit ",bob.wilson@,UK")))).
  reflexivity.
Defined.

Lemma lstrip_split (s : str) :
  exists ws, s = ws ++ lstrip s /\ Forall (fun c => isspace c = true) ws.
Proof.
  induction s as [|c s (ws & E & F)]; simpl.
  - exists []. split; [reflexivity|constructor].
  - destruct (isspace c) eqn:C.
    + exists (c :: ws). split; [simpl; now f_equal|now constructor].
    + exists []. split; [reflexivity|constructor].
Qed.

Lemma lstrip_fixed (s : str) :
  match s with [] => True | c :: _ => isspace c = false end -> lstrip s = s.
Proof. destruct s as [|c s]; simpl; [reflexivity|]. now intros ->. Qed.

Lemma lstrip_head (s : str) :
  match lstrip s with [] => True | c :: _ => isspace c = false end.
Proof.
  destruct (lstrip_cases s) as [->|(c & t & -> & H)]; [exact I|exact H].
Qed.

Lemma lstrip_idempotent (s : str) : lstrip (lstrip s) = lstrip s.
Proof. apply lstrip_fixed, lstrip_head. Qed.

Lemma rstrip_split (s : str) :
  exists ws, s = rstrip s ++ ws /\ Forall (fun c => isspace c = true) ws.
Proof.
  destruct (lstrip_split (rev s)) as (ws & E & F).
  exists (rev ws). split.
  - unfold rstrip. rewrite <- rev_app_distr, <- E. symmetry. apply rev_involutive.
  - now apply Forall_rev.
Qed.

Lemma rstrip_last (s : str) :
  match rev (rstrip s) with [] => True | c :: _ => isspace c = false end.
Proof. unfold rstrip. rewrite rev_involutive. apply lstrip_head. Qed.

Lemma rstrip_keeps_head (s : str) :
  match s with [] => True | c :: _ => isspace c = false end ->
  match rstrip s with [] => True | c :: _ => isspace c = false end.
Proof.
  destruct (rstrip_split s) as (ws & E & _). intros H.
  destruct (rstrip s) as [|x t]; [exact I|]. rewrite E in H. exact H.
Qed.

Lemma strip_shape (s : str) :
  match strip s with [] => True | c :: _ => isspace c = false end /\
  match rev (strip s) with [] => True | c :: _ => isspace c = false end /\
  strip (strip s) = strip s /\
  exists before after,
    s = before ++ strip s ++ after /\
    Forall (fun c => isspace c = true) before /\
    Forall (fun c => isspace c = true) after.
Proof.
  assert (H1 : match strip s with [] => True | c :: _ => isspace c = false end).
  { unfold strip. apply rstrip_keeps_head, lstrip_head. }
  assert (H2 : match rev (strip s) with [] => True | c :: _ => isspace c = false end).
  { unfold strip. apply rstrip_last. }
  split; [exact H1|]. split; [exact H2|]. split.
  - unfold strip at 1. rewrite (lstrip_fixed (strip s) H1).
    unfold rstrip. rewrite (lstrip_fixed _ H2). apply rev_involutive.
  - destruct (lstrip_split s) as (b & Eb & Fb).
    destruct (rstrip_split (lstrip s)) as (a & Ea & Fa).
    exists b, a. split; [|split; assumption].
    unfold strip. now rewrite <- Ea.
Qed.

(** X4. [strip] leaves no blank at either end, and stripping again
    changes nothing; the text it returns is the input without a run of
    blanks before it and one after it. *)
Theorem strip_is_stripped (s : str) :
  match strip s with [] => True | c :: _ => isspace c = false end /\
  match rev (strip s) with [] => True | c :: _ => isspace c = false end /\
  strip (strip s) = strip s /\
  exists before after,
    s = before ++ strip s ++ after /\
    Forall (fun c => isspace c = true) before /\
    Forall (fun c => isspace c = true) after.
Proof. exact (strip_shape s). Qed.

Lemma lstrip_app_blank (b t : str) :
  Forall (fun c => isspace c = true) b -> lstrip (b ++ t) = lstrip t.
Proof. induction 1 as [|c b Hc _ IH]; simpl; [reflexivity|]. now rewrite Hc. Qed.

Lemma lstrip_all_blank (b : str) :
  Forall (fun c => isspace c = true) b -> lstrip b = [].
Proof. intros F. rewrite <- (app_nil_r b). now rewrite lstrip_app_blank. Qed.

Lemma rstrip_app_blank (t a : str) :
  Forall (fun c => isspace c = true) a -> rstrip (t ++ a) = rstrip t.
Proof.
  intros F. unfold rstrip. rewrite rev_app_distr.
  rewrite lstrip_app_blank by now apply Forall_rev. reflexivity.
Qed.

Lemma lstrip_app_after (s a : str) :
  lstrip s <> [] -> lstrip (s ++ a) = lstrip s ++ a.
Proof.
  induction s as [|c s IH]; simpl; [congruence|].
  destruct (isspace c); [exact IH|reflexivity].
Qed.

(** X5. Blanks around a text do not count: a text with blanks put before
    and after it strips to the same result, so names that differ only
    there are equal once cleaned. *)
Theorem strip_ignores_surrounding_blanks (before s after : str) :
  Forall (fun c => isspace c = true) before ->
  Forall (fun c => isspace c = true) after ->
  strip (before ++ s ++ after) = strip s.
Proof.
  intros Fb Fa. unfold strip. rewrite lstrip_app_blank by exact Fb.
  destruct (lstrip s) as [|c t] eqn:E.
  - apply lstrip_nil_all_space in E.
    assert (F : Forall (fun c => isspace c = true) (s ++ after))
      by (apply Forall_app; now split).
    rewrite (lstrip_all_blank _ F). reflexivity.
  - rewrite lstrip_app_after by (rewrite E; discriminate).
    rewrite E. now apply rstrip_app_blank.
Qed.

Lemma strip_ignores_surrounding_blanks_witness :
  strip (lit "  " ++ lit "Desk Lamp" ++ lit " ") = strip (lit "Desk Lamp").
Proof.
  apply strip_ignores_surrounding_blanks; repeat constructor.
Defined.

End LoaderMore.

(** ** More on the date parser *)

Module DatesMore.
Import Dates DatesFacts DatesPlain.

Lemma strptime_valid (s fmt : str) (d : date) :
  strptime s fmt = Ok d -> valid_date (year d) (month d) (day d) = true.
Proof.
  unfold strptime, date_of_match.
  destruct (compile fmt) as [items|]; [|discriminate].
  destruct (match_items items s) as [|[groups rest] more]; [discriminate|].
  destruct (is_empty rest); [|discriminate].
  destruct (valid_date _ _ _) eqn:V; [|discriminate].
  intros E. inversion E; subst. exact V.
Qed.

Lemma try_formats_some (fmts : list str) (s : str) (d : date) :
  try_formats fmts s = Ok (Some d) ->
  exists before fmt after,
    fmts = before ++ fmt :: after /\ strptime s fmt = Ok d /\
    Forall (fun f => strptime s f = Raise ValueError) before.
Proof.
  induction fmts as [|f fmts IH]; [discriminate|].
  rewrite try_formats_cons. destruct (strptime s f) as [d'|e] eqn:E.
  - intros H. inversion H; subst. exists [], f, fmts. repeat split; auto.
  - intros H. destruct (IH H) as (b & g & a & -> & Hg & F).
    exists (f :: b), g, a. repeat split; auto. constructor; [|exact F].
    rewrite E. f_equal. eapply strptime_only_ValueError; eassumption.
Qed.

Lemma try_formats_total (fmts : list str) (s : str) :
  exists r, try_formats fmts s = Ok r.
Proof.
  induction fmts as [|f fmts (r & IH)]; [now exists None|].
  rewrite try_formats_cons. destruct (strptime s f) as [d|e]; eauto.
Qed.

(** X6. A date returned by [parse_date] is a day of the calendar: year
    from 1 to 9999, month from 1 to 12, and a day that the month has in
    that year. *)
Theorem parse_date_returns_calendar_dates (cell : option str) (d : date) :
  parse_date cell = Ok (Some d) ->
  valid_date (year d) (month d) (day d) = true /\
  (1 <= year d <= 9999)%N /\ (1 <= month d <= 12)%N /\
  (1 <= day d <= days_in_month (year d) (month d))%N.
Proof.
  intros H. apply try_formats_some in H. destruct H as (_ & f & _ & _ & H & _).
  apply strptime_valid in H. split; [exact H|].
  unfold valid_date in H.
  repeat (apply andb_prop in H; destruct H as [H ?]).
  repeat match goal with H : (_ <=? _)%N = true |- _ => apply N.leb_le in H end.
  lia.
Qed.

Lemma parse_date_returns_calendar_dates_witness :
  let cell := Some (lit "29/02/2024") in
  parse_date cell = Ok (Some (Date 2024 2 29)) /\
  valid_date 2024 2 29 = true.
Proof.
  split; [reflexivity|].
  exact (proj1 (parse_date_returns_calendar_dates (Some (lit "29/02/2024"))
                  (Date 2024 2 29) eq_refl)).
Defined.

(** Shapes of the texts that the groups match. *)
Lemma match_classes_two (k1 k2 : cls) (s txt rest : str) :
  match_classes [k1; k2] s = Some (txt, rest) ->
  exists a b, s = a :: b :: rest /\ txt = [a; b] /\
              cls_match k1 a = true /\ cls_match k2 b = true.
Proof.
  destruct s as [|a [|b r]]; simpl; try discriminate.
  - destruct (cls_match k1 a); discriminate.
  - destruct (cls_match k1 a) eqn:A; [|discriminate].
    destruct (cls_match k2 b) eqn:B; [|discriminate].
    intros E. inversion E; subst. now exists a, b.
Qed.

Lemma match_classes_one (k : cls) (s txt rest : str) :
  match_classes [k] s = Some (txt, rest) ->
  exists a, s = a :: rest /\ txt = [a] /\ cls_match k a = true.
Proof.
  destruct s as [|a r]; simpl; [discriminate|].
  destruct (cls_match k a) eqn:A; [|discriminate].
  intros E. inversion E; subst. now exists a.
Qed.

Lemma range_digit (lo hi c : char) :
  (48 <= lo)%N -> (hi <= 57)%N -> cls_match (Range lo hi) c = true -> is_digit c = true.
Proof.
  unfold cls_match, is_digit. intros L H E. apply andb_prop in E.
  destruct E as [A B]. apply N.leb_le in A, B.
  apply andb_true_intro. split; apply N.leb_le; lia.
Qed.

Ltac alternative H :=
  match type of H with
  | In _ (match match_classes [_; _] _ with _ => _ end) =>
      let E := fresh "E" in
      destruct (match_classes _ _) as [[? ?]|] eqn:E; [|destruct H];
      destruct H as [H|[]]; inversion H; subst; clear H;
      apply match_classes_two in E;
      destruct E as (? & ? & -> & -> & ? & ?)
  | In _ (match match_classes [_] _ with _ => _ end) =>
      let E := fresh "E" in
      destruct (match_classes _ _) as [[? ?]|] eqn:E; [|destruct H];
      destruct H as [H|[]]; inversion H; subst; clear H;
      apply match_classes_one in E;
      destruct E as (? & -> & -> & ?)
  end.

Lemma group_d_shape (s txt rest : str) :
  In (txt, rest) (match_group regex_d s) ->
  (exists a, s = a :: rest /\ is_digit a = true) \/
  (exists a b, s = a :: b :: rest /\ is_digit b = true).
Proof.
  unfold match_group, regex_d. cbn [flat_map]. rewrite !in_app_iff.
  intros [H|[H|[H|[H|[H|[]]]]]]; alternative H;
    first [ left; eexists; split; [reflexivity|]; eapply range_digit; [| |eassumption]; cbn; lia
          | right; eexists _, _; split; [reflexivity|];
            first [ assumption | eapply range_digit; [| |eassumption]; cbn; lia ] ].
Qed.

Lemma group_m_shape (s txt rest : str) :
  In (txt, rest) (match_group regex_m s) ->
  (exists a, s = a :: rest /\ is_digit a = true) \/
  (exists a b, s = a :: b :: rest /\ is_digit b = true).
Proof.
  unfold match_group, regex_m. cbn [flat_map]. rewrite !in_app_iff.
  intros [H|[H|[H|[]]]]; alternative H;
    first [ left; eexists; split; [reflexivity|]; eapply range_digit; [| |eassumption]; cbn; lia
          | right; eexists _, _; split; [reflexivity|];
            first [ assumption | eapply range_digit; [| |eassumption]; cbn; lia ] ].
Qed.

Lemma group_Y_shape (s txt rest : str) :
  In (txt, rest) (match_group regex_Y s) ->
  exists a b c e, s = a :: b :: c :: e :: rest /\
    is_digit a = true /\ is_digit b = true /\ is_digit c = true /\ is_digit e = true.
Proof.
  unfold match_group, regex_Y. cbn [flat_map]. rewrite app_nil_r.
  destruct s as [|a [|b [|c [|e r]]]]; cbn;
    repeat match goal with
           | |- context [is_digit ?x] => destruct (is_digit x) eqn:?; cbn
           end; try tauto.
  intros [H|[]]. inversion H; subst. now exists a, b, c, e.
Qed.

Lemma not_nil_In {A} (l : list A) : l <> [] -> exists x, In x l.
Proof. destruct l as [|x l]; [congruence|]. intros _. exists x. now left. Qed.

(** A group followed by a literal matches only when some way of matching
    the group stops right before that literal. *)
Lemma group_then_literal_shape (name c : char) (alts : alternatives)
  (items : list item) (s : str) :
  match_items (Group name alts :: Literal c :: items) s <> [] ->
  exists txt r, In (txt, c :: r) (match_group alts s).
Proof.
  intros H. apply not_nil_In in H. destruct H as (x & H).
  cbn [match_items] in H. apply in_flat_map in H.
  destruct H as ([txt rest] & I & H). apply in_map_iff in H.
  destruct H as (gr & _ & H). cbn [snd] in H.
  destruct rest as [|y r]; [destruct H|].
  destruct (N.eqb y c) eqn:E; [|destruct H].
  apply N.eqb_eq in E. subst y. now exists txt, r.
Qed.

Lemma ymd_shape (c : char) (s : str) :
  match_items (ymd c) s <> [] ->
  exists a b e x r, s = a :: b :: e :: x :: c :: r /\
    is_digit a = true /\ is_digit b = true /\ is_digit e = true /\ is_digit x = true.
Proof.
  intros H. apply group_then_literal_shape in H. destruct H as (txt & r & H).
  apply group_Y_shape in H. destruct H as (a & b & e & x & -> & ?).
  now exists a, b, e, x, r.
Qed.

Lemma dmy_shape (c : char) (s : str) :
  match_items (dmy c) s <> [] ->
  (exists a r, s = a :: c :: r /\ is_digit a = true) \/
  (exists a b r, s = a :: b :: c :: r /\ is_digit b = true).
Proof.
  intros H. apply group_then_literal_shape in H. destruct H as (txt & r & H).
  apply group_d_shape in H. destruct H as [(a & -> & ?)|(a & b & -> & ?)].
  - left. now exists a, r.
  - right. now exists a, b, r.
Qed.

Lemma strptime_matches (s : str) (items : list item) (d : date) :
  date_of_match (match_items items s) = Ok d -> match_items items s <> [].
Proof. destruct (match_items items s); [discriminate|discriminate]. Qed.

Ltac clash :=
  repeat match goal with
         | H : _ \/ _ |- _ => destruct H
         | H : exists _, _ |- _ => destruct H
         | H : _ /\ _ |- _ => destruct H
         end;
  subst;
  repeat match goal with
         | H : _ :: _ = _ :: _ |- _ => inversion H; clear H; subst
         end;
  try discriminate;
  repeat match goal with
         | H : is_digit dash = true |- _ => discriminate H
         | H : is_digit slash = true |- _ => discriminate H
         end.

(** No text is matched by the patterns of two of the four formats. *)
Lemma patterns_exclusive (s : str) :
  (match_items (ymd dash) s <> [] -> match_items (dmy slash) s = []) /\
  (match_items (ymd dash) s <> [] -> match_items (dmy dash) s = []) /\
  (match_items (ymd dash) s <> [] -> match_items (ymd slash) s = []) /\
  (match_items (dmy slash) s <> [] -> match_items (dmy dash) s = []) /\
  (match_items (dmy slash) s <> [] -> match_items (ymd slash) s = []) /\
  (match_items (dmy dash) s <> [] -> match_items (ymd slash) s = []).
Proof.
  repeat split; intros H;
    match goal with
    | |- ?l = [] => destruct l eqn:E; [reflexivity|exfalso];
                    assert (H' : l <> []) by (rewrite E; discriminate); clear E
    end;
    repeat match goal with
           | H : match_items (ymd _) _ <> [] |- _ => apply ymd_shape in H
           | H : match_items (dmy _) _ <> [] |- _ => apply dmy_shape in H
           end;
    clash.
Qed.

Lemma formats_exclusive (s f1 f2 : str) (d1 d2 : date) :
  In f1 formats -> In f2 formats ->
  strptime s f1 = Ok d1 -> strptime s f2 = Ok d2 -> f1 = f2.
Proof.
  intros I1 I2 H1 H2.
  destruct (strptime_format s) as (F1 & F2 & F3 & F4).
  destruct (patterns_exclusive s) as (P1 & P2 & P3 & P4 & P5 & P6).
  unfold formats in I1, I2. cbn [In] in I1, I2.
  destruct I1 as [<-|[<-|[<-|[<-|[]]]]]; destruct I2 as [<-|[<-|[<-|[<-|[]]]]];
    try reflexivity; exfalso;
    repeat match goal with
           | H : strptime s ?f = Ok _, F : strptime s ?f = date_of_match _ |- _ =>
               rewrite F in H
           end;
    pose proof (strptime_matches _ _ _ H1) as N1;
    pose proof (strptime_matches _ _ _ H2) as N2;
    first [ rewrite (P1 N1) in N2 | rewrite (P2 N1) in N2 | rewrite (P3 N1) in N2
          | rewrite (P4 N1) in N2 | rewrite (P5 N1) in N2 | rewrite (P6 N1) in N2
          | rewrite (P1 N2) in N1 | rewrite (P2 N2) in N1 | rewrite (P3 N2) in N1
          | rewrite (P4 N2) in N1 | rewrite (P5 N2) in N1 | rewrite (P6 N2) in N1 ];
    congruence.
Qed.

Lemma try_formats_none (fmts : list str) (s : str) :
  try_formats fmts s = Ok None ->
  Forall (fun f => strptime s f = Raise ValueError) fmts.
Proof.
  induction fmts as [|f fmts IH]; [constructor|].
  rewrite try_formats_cons. destruct (strptime s f) as [d|e] eqn:E; [discriminate|].
  intros H. constructor; [|auto].
  rewrite E. f_equal. eapply strptime_only_ValueError; eassumption.
Qed.

Lemma parse_date_accepted (cell : option str) (f : str) (d : date) :
  In f formats -> strptime (to_str cell) f = Ok d -> parse_date cell = Ok (Some d).
Proof.
  intros I H. unfold parse_date.
  destruct (try_formats_total formats (to_str cell)) as ([d'|] & E); rewrite E.
  - apply try_formats_some in E. destruct E as (b & g & a & Ef & Hg & _).
    assert (Ig : In g formats) by (rewrite Ef; apply in_elt).
    rewrite (formats_exclusive _ _ _ _ _ I Ig H Hg) in H. congruence.
  - apply try_formats_none in E. rewrite Forall_forall in E.
    rewrite (E f I) in H. discriminate.
Qed.

(** X7. No text is accepted by two of the four formats, so the order in
    which [parse_date] tries them does not matter: it returns a date
    exactly when one of the formats accepts the text with that date. *)
Theorem parse_date_order_is_immaterial (cell : option str) (d : date) :
  (forall f1 f2 d1 d2,
      In f1 formats -> In f2 formats ->
      strptime (to_str cell) f1 = Ok d1 -> strptime (to_str cell) f2 = Ok d2 ->
      f1 = f2 /\ d1 = d2) /\
  (parse_date cell = Ok (Some d) <->
   exists f, In f formats /\ strptime (to_str cell) f = Ok d).
Proof.
  split.
  - intros f1 f2 d1 d2 I1 I2 H1 H2.
    pose proof (formats_exclusive _ _ _ _ _ I1 I2 H1 H2) as E. subst f2.
    split; [reflexivity|congruence].
  - split.
    + intros H. apply try_formats_some in H.
      destruct H as (b & f & a & Ef & H & _). exists f. split; [|exact H].
      rewrite Ef. apply in_elt.
    + intros (f & I & H). eapply parse_date_accepted; eassumption.
Qed.

Lemma parse_date_order_is_immaterial_witness :
  let cell := Some (lit "2024/3/05") in
  (exists f, In f formats /\ strptime (to_str cell) f = Ok (Date 2024 3 5)) /\
  parse_date cell = Ok (Some (Date 2024 3 5)).
Proof.
  assert (H : exists f, In f formats /\
                        strptime (to_str (Some (lit "2024/3/05"))) f = Ok (Date 2024 3 5)).
  { exists (lit "%Y/%m/%d"). split; [right; right; right; left; reflexivity|reflexivity]. }
  split; [exact H|].
  exact (proj2 (proj2 (parse_date_order_is_immaterial (Some (lit "2024/3/05"))
                         (Date 2024 3 5))) H).
Defined.

Lemma int_of_field (p : bool) (n : N) : (n < 100)%N -> int_of (field p n) = n.
Proof.
  intros L. unfold field. destruct (p || (10 <=? n)%N) eqn:E.
  - now apply int_of_pad2.
  - apply orb_false_elim in E. destruct E as [_ E]. apply N.leb_gt in E.
    unfold int_of. cbn [fold_left]. rewrite is_digit_digit_char by lia.
    unfold digit_char. lia.
Qed.

Lemma field_m_then_literal (p : bool) (c : char) (m : N) (items : list item) (s : str) :
  c = dash \/ c = slash -> (1 <= m <= 12)%N ->
  match_items (Group (ch "m") regex_m :: Literal c :: items) (field p m ++ c :: s)
  = map (tag (ch "m") (field p m)) (match_items items s).
Proof.
  intros Hc Hm. each_below m 13%nat; intros Hm; try lia;
    destruct Hc; subst c; destruct p; cbn; now rewrite ?app_nil_r.
Qed.

Lemma field_d_then_literal (p : bool) (c : char) (d : N) (items : list item) (s : str) :
  c = dash \/ c = slash -> (1 <= d <= 31)%N ->
  match_items (Group (ch "d") regex_d :: Literal c :: items) (field p d ++ c :: s)
  = map (tag (ch "d") (field p d)) (match_items items s).
Proof.
  intros Hc Hd. each_below d 32%nat; intros Hd; try lia;
    destruct Hc; subst c; destruct p; cbn; now rewrite ?app_nil_r.
Qed.

Lemma field_d_last (p : bool) (d : N) :
  (1 <= d <= 31)%N ->
  exists more,
    match_items [Group (ch "d") regex_d] (field p d)
    = ([(ch "d", field p d)], []) :: more.
Proof.
  intros Hd. each_below d 32%nat; intros Hd; try lia;
    destruct p; cbn; eexists; reflexivity.
Qed.

Lemma date_of_groups (y m d : N) (ty tm td : str) (first_is_year : bool) more :
  valid_date y m d = true ->
  int_of ty = y -> int_of tm = m -> int_of td = d ->
  date_of_match
    ((if first_is_year
      then [(ch "Y", ty); (ch "m", tm); (ch "d", td)]
      else [(ch "d", td); (ch "m", tm); (ch "Y", ty)], []) :: more)
  = Ok (Date y m d).
Proof.
  intros V Ey Em Ed. unfold date_of_match, group_int. cbn [is_empty].
  destruct first_is_year; cbn - [int_of]; rewrite Ey, Em, Ed, V; reflexivity.
Qed.

Lemma plain_ymd_accepted (pm pd : bool) (c : char) (y m d : N) :
  c = dash \/ c = slash -> valid_date y m d = true ->
  date_of_match (match_items (ymd c) (DatesPlain.text_ymd pm pd c (Date y m d)))
  = Ok (Date y m d).
Proof.
  intros Hc V. destruct (valid_date_bounds y m d V) as (Ly & Lm & Ld).
  unfold ymd, DatesPlain.text_ymd. cbn [year month day].
  rewrite group_Y_first by exact Ly.
  replace (match_items (Literal c :: Group (ch "m") regex_m :: Literal c :: [Group (ch "d") regex_d])
             (c :: field pm m ++ c :: field pd d))
    with (match_items (Group (ch "m") regex_m :: Literal c :: [Group (ch "d") regex_d])
             (field pm m ++ c :: field pd d))
    by (cbn [match_items]; now rewrite N.eqb_refl).
  rewrite field_m_then_literal by assumption.
  destruct (field_d_last pd d Ld) as (more & ->).
  cbn [map]. unfold tag. cbn [fst snd].
  apply (date_of_groups y m d _ _ _ true); auto using int_of_pad4.
  - apply int_of_field. lia.
  - apply int_of_field. lia.
Qed.

Lemma plain_dmy_accepted (pm pd : bool) (c : char) (y m d : N) :
  c = dash \/ c = slash -> valid_date y m d = true ->
  date_of_match (match_items (dmy c) (DatesPlain.text_dmy pm pd c (Date y m d)))
  = Ok (Date y m d).
Proof.
  intros Hc V. destruct (valid_date_bounds y m d V) as (Ly & Lm & Ld).
  unfold dmy, DatesPlain.text_dmy. cbn [year month day].
  rewrite field_d_then_literal, field_m_then_literal by assumption.
  rewrite <- (app_nil_r (pad4 y)), group_Y_first by exact Ly.
  cbn [match_items map]. unfold tag. cbn [fst snd].
  apply (date_of_groups y m d _ _ _ false); auto using int_of_pad4.
  - apply int_of_field. lia.
  - apply int_of_field. lia.
Qed.

(** X8. Day and month need no leading zero: a valid date written in any
    of the four formats, each of day and month with or without its zero,
    is read back as that date. *)
Theorem parse_date_without_leading_zeros (pad_m pad_d : bool) (fmt : nat) (dt : date) :
  valid_date (year dt) (month dt) (day dt) = true ->
  parse_date (Some (DatesPlain.write pad_m pad_d fmt dt)) = Ok (Some dt).
Proof.
  destruct dt as [y m d]. cbn [year month day]. intros V.
  destruct (strptime_format (DatesPlain.write pad_m pad_d fmt (Date y m d)))
    as (F1 & F2 & F3 & F4).
  destruct fmt as [|[|[|k]]]; cbn [DatesPlain.write] in *.
  - apply (parse_date_accepted _ (lit "%Y-%m-%d")); [left; reflexivity|].
    cbn [to_str]. rewrite F1. apply plain_ymd_accepted; auto.
  - apply (parse_date_accepted _ (lit "%d/%m/%Y")); [right; left; reflexivity|].
    cbn [to_str]. rewrite F2. apply plain_dmy_accepted; auto.
  - apply (parse_date_accepted _ (lit "%d-%m-%Y")); [right; right; left; reflexivity|].
    cbn [to_str]. rewrite F3. apply plain_dmy_accepted; auto.
  - apply (parse_date_accepted _ (lit "%Y/%m/%d"));
      [right; right; right; left; reflexivity|].
    cbn [to_str]. rewrite F4. apply plain_ymd_accepted; auto.
Qed.

Lemma parse_date_without_leading_zeros_witness :
  DatesPlain.write false false 1 (Date 2024 3 5) = lit "5/3/2024" /\
  valid_date 2024 3 5 = true /\
  parse_date (Some (lit "5/3/2024")) = Ok (Some (Date 2024 3 5)).
Proof.
  split; [reflexivity|]. split; [reflexivity|].
  exact (parse_date_without_leading_zeros false false 1 (Date 2024 3 5) eq_refl).
Defined.

End DatesMore.

(** ** More on the cleaning steps and the merge *)

Module CleaningMore.
Import Frames FramesFacts LoaderMore.

Lemma strip_nil_iff (s : str) :
  strip s = [] <-> Forall (fun c => isspace c = true) s.
Proof.
  split; [apply strip_nil_all_space|].
  intros F. destruct (strip_shape s) as (H1 & _ & _ & b & a & E & _).
  destruct (strip s) as [|c t]; [reflexivity|].
  rewrite Forall_forall in F. rewrite (F c) in H1; [discriminate|].
  rewrite E. apply in_or_app. right. now left.
Qed.

(** X9. A cleaned email is never the empty string and has no blank at
    either end; it is missing exactly when the cell was missing or held
    blanks only. *)
Theorem clean_email_missing_or_stripped (c : option str) :
  clean_email c <> Some [] /\
  (clean_email c = None <->
   c = None \/ exists s, c = Some s /\ Forall (fun x => isspace x = true) s) /\
  (forall e, clean_email c = Some e ->
             exists s, c = Some s /\ e = strip s /\ strip e = e).
Proof.
  unfold clean_email, str_strip. destruct c as [s|]; cbn [option_map].
  - destruct (strip s) as [|x t] eqn:E.
    + split; [discriminate|]. split.
      * split; [|reflexivity]. intros _. right. exists s. split; [reflexivity|].
        now apply strip_nil_iff.
      * discriminate.
    + split; [discriminate|]. split.
      * split; [discriminate|]. intros [H|(s' & H & F)]; [discriminate|].
        inversion H; subst. apply strip_nil_iff in F. congruence.
      * intros e H. inversion H; subst. exists s. split; [reflexivity|].
        split; [now symmetry|]. rewrite <- E.
        now destruct (strip_shape s) as (_ & _ & ? & _).
  - split; [discriminate|]. split; [split; [now left|reflexivity]|discriminate].
Qed.

Lemma clean_email_missing_or_stripped_witness :
  clean_email (Some (lit "  ann@shop.org ")) = Some (lit "ann@shop.org") /\
  exists s, Some (lit "  ann@shop.org ") = Some s /\
            lit "ann@shop.org" = strip s /\ strip (lit "ann@shop.org") = lit "ann@shop.org".
Proof.
  split; [reflexivity|].
  exact (proj2 (proj2 (clean_email_missing_or_stripped (Some (lit "  ann@shop.org "))))
           (lit "ann@shop.org") eq_refl).
Defined.

Lemma strip_currency_app (a b : str) :
  strip_currency (a ++ b) = strip_currency a ++ strip_currency b.
Proof. apply filter_app. Qed.

(** X10. The currency symbols [$], [,] and the euro sign are dropped
    wherever they stand in a price, also inside the number: the cast sees
    the other characters in their order, and none of the three. *)
Theorem price_symbols_dropped_anywhere (W : Library) (a b : str) (c : char) :
  currency_symbol c = true ->
  clean_price (Some (a ++ c :: b)) = clean_price (Some (a ++ b)) /\
  Forall (fun x => currency_symbol x = false) (strip_currency (a ++ c :: b)) /\
  strip_currency (strip_currency (a ++ c :: b)) = strip_currency (a ++ b).
Proof.
  intros H.
  assert (E : strip_currency (a ++ c :: b) = strip_currency (a ++ b)).
  { rewrite !strip_currency_app. f_equal. unfold strip_currency. simpl.
    now rewrite H. }
  assert (F : forall s, Forall (fun x => currency_symbol x = false) (strip_currency s)).
  { intros s. apply Forall_forall. intros x I. unfold strip_currency in I.
    apply filter_In in I. destruct I as [_ I]. now apply negb_true_iff. }
  split; [unfold clean_price; now rewrite E|]. split; [apply F|].
  rewrite E. unfold strip_currency at 1. apply forallb_filter_id.
  apply forallb_forall. intros x I. apply negb_true_iff.
  specialize (F (a ++ b)). rewrite Forall_forall in F. now apply F.
Qed.

Lemma price_symbols_dropped_anywhere_witness :
  currency_symbol 44%N = true /\
  clean_price (W := strict_library) (Some (lit "$1" ++ 44%N :: lit "250.50"))
  = clean_price (W := strict_library) (Some (lit "$1250.50")).
Proof.
  split; [reflexivity|].
  exact (proj1 (price_symbols_dropped_anywhere strict_library (lit "$1") (lit "250.50")
                  44%N eq_refl)).
Defined.

Lemma parse_date_total (cell : option str) : exists r, Dates.parse_date cell = Ok r.
Proof. apply DatesMore.try_formats_total. Qed.

Lemma insert_In (x y : Q) (l : list Q) :
  In x (Num.insert y l) <-> x = y \/ In x l.
Proof.
  induction l as [|z l IH]; simpl; [intuition congruence|].
  destruct (Qle_bool y z); simpl; [intuition congruence|].
  rewrite IH. intuition congruence.
Qed.

Lemma sort_In (x : Q) (l : list Q) : In x (Num.sort l) <-> In x l.
Proof.
  induction l as [|y l IH]; simpl; [tauto|].
  rewrite insert_In, IH. intuition congruence.
Qed.

Lemma present_In_iff (cells : list Num.cell) (x : Q) :
  In x (Num.present cells) <-> In (Some x) cells.
Proof.
  induction cells as [|[y|] cells IH]; simpl; [tauto| |].
  - rewrite IH. split; intros [H|H]; auto; [left; congruence|left; congruence].
  - rewrite IH. split; [auto|]. intros [H|H]; [discriminate|auto].
Qed.

(** The median is one of the values, or the mean of two of them. *)
Lemma median_of_values (cells : list Num.cell) (m : Q) :
  Num.median cells = Some m ->
  In (Some m) cells \/
  exists a b, In (Some a) cells /\ In (Some b) cells /\
              m = Qdiv (Qplus a b) (inject_Z 2).
Proof.
  unfold Num.median.
  set (vs := Num.sort (Num.present cells)).
  assert (V : forall x, In x vs -> In (Some x) cells).
  { intros x I. apply present_In_iff, sort_In. exact I. }
  destruct (Nat.eqb (length vs) 0); [discriminate|].
  destruct (Nat.odd (length vs)).
  - intros H. left. apply V. eapply nth_error_In. exact H.
  - destruct (nth_error vs (length vs / 2 - 1)) as [a|] eqn:A; [|discriminate].
    destruct (nth_error vs (length vs / 2)) as [b|] eqn:B; [|discriminate].
    cbn. intros H. inversion H; subst. right. exists a, b.
    split; [apply V; eapply nth_error_In; exact A|].
    split; [apply V; eapply nth_error_In; exact B|reflexivity].
Qed.

(** X13. The median of a column is missing exactly when the column has no
    value, and it lies between any two bounds that hold all the values. *)
Theorem median_within_the_values (cells : list Num.cell) (lo hi : Q) :
  (forall x, In (Some x) cells -> Qle lo x /\ Qle x hi) ->
  (Num.median cells = None <-> forall x, ~ In (Some x) cells) /\
  (forall m, Num.median cells = Some m -> Qle lo m /\ Qle m hi).
Proof.
  intros B. split.
  - split.
    + intros H x I. destruct (median_some cells x I) as (m & E). congruence.
    + intros H. destruct (Num.median cells) as [m|] eqn:E; [|reflexivity].
      exfalso. apply median_of_values in E.
      destruct E as [I|(a & b & I & _)]; eapply H; eassumption.
  - intros m E. apply median_of_values in E.
    destruct E as [I|(a & b & Ia & Ib & ->)]; [now apply B|].
    destruct (B a Ia), (B b Ib).
    split; [apply Qle_shift_div_l | apply Qle_shift_div_r]; try reflexivity;
      unfold inject_Z; lra.
Qed.

Lemma median_within_the_values_witness :
  let cells := [Some (inject_Z 30); None; Some (inject_Z 41); Some (inject_Z 23)] in
  (forall x, In (Some x) cells -> Qle (inject_Z 23) x /\ Qle x (inject_Z 41)) /\
  Num.median cells = Some (inject_Z 30) /\
  Qle (inject_Z 23) (inject_Z 30) /\ Qle (inject_Z 30) (inject_Z 41).
Proof.
  cbv zeta.
  assert (B : forall x,
             In (Some x) [Some (inject_Z 30); None; Some (inject_Z 41); Some (inject_Z 23)] ->
             Qle (inject_Z 23) x /\ Qle x (inject_Z 41)).
  { intros x [E|[E|[E|[E|[]]]]]; inversion E; subst; split; discriminate. }
  split; [exact B|]. split; [reflexivity|].
  exact (proj2 (median_within_the_values _ (inject_Z 23) (inject_Z 41) B)
           (inject_Z 30) eq_refl).
Defined.

Lemma cut_in_range (x : Q) :
  Qle 0 x -> Qlt x (inject_Z 100) -> exists label, cut age_bins x = Some label.
Proof.
  intros L H. unfold age_bins, cut.
  repeat match goal with
         | |- context [Qle_bool ?a ?b] =>
             let E := fresh "E" in
             destruct (Qle_bool a b) eqn:E;
             [apply Qle_bool_iff in E | apply not_true_iff_false in E;
                                       rewrite Qle_bool_iff in E]
         end; cbn [andb negb]; eauto; exfalso; unfold inject_Z in *; lra.
Qed.

Lemma cut_out_of_range (x : Q) :
  Qlt x 0 \/ Qle (inject_Z 100) x -> cut age_bins x = None.
Proof.
  intros H. unfold age_bins, cut.
  repeat match goal with
         | |- context [Qle_bool ?a ?b] =>
             let E := fresh "E" in
             destruct (Qle_bool a b) eqn:E;
             [apply Qle_bool_iff in E | apply not_true_iff_false in E;
                                       rewrite Qle_bool_iff in E]
         end; cbn [andb negb]; try reflexivity; exfalso; unfold inject_Z in *; lra.
Qed.

(** X14. The age bins are half-open and cover the ages from 0 up to,
    not including, 100: an age has a group exactly when it lies there, and
    the bounds 20, 30, 40 and 50 belong to the bin they open. *)
Theorem age_group_covers_0_to_100 (x : Q) :
  (age_group_of (Some x) = None <-> Qlt x 0 \/ Qle (inject_Z 100) x) /\
  (Qle 0 x -> Qlt x (inject_Z 20) -> age_group_of (Some x) = Some (lit "<20")) /\
  (Qle (inject_Z 20) x -> Qlt x (inject_Z 30) -> age_group_of (Some x) = Some (lit "20-29")) /\
  (Qle (inject_Z 30) x -> Qlt x (inject_Z 40) -> age_group_of (Some x) = Some (lit "30-39")) /\
  (Qle (inject_Z 40) x -> Qlt x (inject_Z 50) -> age_group_of (Some x) = Some (lit "40-49")) /\
  (Qle (inject_Z 50) x -> Qlt x (inject_Z 100) -> age_group_of (Some x) = Some (lit "50+")).
Proof.
  split.
  - cbn [age_group_of]. split.
    + intros H. destruct (Qlt_le_dec x 0) as [L|L]; [now left|].
      destruct (Qlt_le_dec x (inject_Z 100)) as [U|U]; [|now right].
      destruct (cut_in_range x L U) as (l & E). congruence.
    + apply cut_out_of_range.
  - cbn [age_group_of]. unfold age_bins, cut.
    repeat split; intros L U;
      repeat match goal with
             | |- context [Qle_bool ?a ?b] =>
                 let E := fresh "E" in
                 destruct (Qle_bool a b) eqn:E;
                 [apply Qle_bool_iff in E | apply not_true_iff_false in E;
                                           rewrite Qle_bool_iff in E]
             end; cbn [andb negb]; try reflexivity; exfalso; unfold inject_Z in *; lra.
Qed.

Lemma age_group_covers_0_to_100_witness :
  Qle (inject_Z 20) (inject_Z 20) /\ Qlt (inject_Z 20) (inject_Z 30) /\
  age_group_of (Some (inject_Z 20)) = Some (lit "20-29").
Proof.
  assert (L : Qle (inject_Z 20) (inject_Z 20)) by discriminate.
  assert (U : Qlt (inject_Z 20) (inject_Z 30)) by reflexivity.
  split; [exact L|]. split; [exact U|].
  exact (proj1 (proj2 (proj2 (age_group_covers_0_to_100 (inject_Z 20)))) L U).
Defined.

Section LeftJoinMore.

Context {L R K : Type}.
Variable key_eq_dec : forall a b : K, {a = b} + {a <> b}.
Variable left_key : L -> K.
Variable right_key : R -> K.

(** A left join has at least one row for each left row, whatever the
    right table holds. *)
Lemma left_join_at_least (left : list L) (right : list R) :
  length left <= length (left_join key_eq_dec left_key right_key left right) /\
  forall l, In l left ->
            exists o, In (l, o) (left_join key_eq_dec left_key right_key left right).
Proof.
  unfold left_join. induction left as [|l left [IHl IHi]]; cbn [flat_map].
  - split; [reflexivity|intros ? []].
  - split.
    + rewrite length_app. cbn [length].
      destruct (filter _ right) as [|x xs]; cbn [length map Nat.add]; apply le_n_S;
        [exact IHl | eapply Nat.le_trans; [exact IHl | apply Nat.le_add_l]].
    + intros l' [<-|I].
      * destruct (filter _ right) as [|x xs].
        -- exists None. apply in_or_app. left. now left.
        -- exists (Some x). apply in_or_app. left. now left.
      * destruct (IHi l' I) as (o & H). exists o. apply in_or_app. now right.
Qed.

End LeftJoinMore.

Section MoreTableFacts.

Variable Id : Type.
Variable Id_eq_dec : forall a b : Id, {a = b} + {a <> b}.

Local Abbreviation raw_id := (@Customers.raw_customer_id Id).

Lemma assemble_rows (rows : list (Sales.raw Id)) (prices : list Num.cell)
  (dates : list (option Dates.date)) :
  length prices = length rows -> length dates = length rows ->
  length (assemble rows prices dates) = length rows /\
  Forall2 (fun r s =>
             Sales.order_id s = Sales.raw_order_id r /\
             Sales.customer_id s = Sales.raw_customer_id r /\
             Sales.category s = Sales.raw_category r /\
             Sales.quantity s = Sales.raw_quantity r /\
             Sales.product_name s = str_strip (Sales.raw_product_name r) /\
             Sales.customer_email s = clean_email (Sales.raw_customer_email r))
          rows (assemble rows prices dates).
Proof.
  revert prices dates. induction rows as [|r rows IH]; intros prices dates Lp Ld.
  - split; [reflexivity|constructor].
  - destruct prices as [|p prices]; [discriminate|].
    destruct dates as [|d dates]; [discriminate|].
    destruct (IH prices dates) as [L F]; [simpl in Lp; lia|simpl in Ld; lia|].
    cbn [assemble]. split; [simpl; now rewrite L|].
    constructor; [repeat split|exact F].
Qed.

Lemma cast_column_length (W : Library) (cells : list (option str)) (prices : list Num.cell) :
  cast_column cells = Ok prices -> length prices = length cells.
Proof.
  revert prices. induction cells as [|c cells IH]; intros prices; cbn [cast_column].
  - intros E. now inversion E.
  - unfold bind. destruct (clean_price c); [|discriminate].
    destruct (cast_column cells) as [ps|]; [|discriminate].
    intros E. inversion E. simpl. now rewrite (IH ps).
Qed.

Lemma parse_dates_length (cells : list (option str)) (dates : list (option Dates.date)) :
  parse_dates cells = Ok dates -> length dates = length cells.
Proof.
  revert dates. induction cells as [|c cells IH]; intros dates; cbn [parse_dates].
  - intros E. now inversion E.
  - unfold bind. destruct (Dates.parse_date c); [|discriminate].
    destruct (parse_dates cells) as [ds|]; [|discriminate].
    intros E. inversion E. simpl. now rewrite (IH ds).
Qed.

(** X11. When cleaning the sales table returns, it has kept every row, in
    order, with its ids, category and quantity as read and its product
    name and email stripped; and it ends with [AttributeError] at the
    first statement when the product names are not held as strings. *)
Theorem clean_sales_keeps_rows (W : Library) (raw : list (Sales.raw Id))
  (sales : list (Sales.row Id)) :
  (clean_sales raw = Ok sales ->
   length sales = length raw /\
   Forall2 (fun r s =>
              Sales.order_id s = Sales.raw_order_id r /\
              Sales.customer_id s = Sales.raw_customer_id r /\
              Sales.category s = Sales.raw_category r /\
              Sales.quantity s = Sales.raw_quantity r /\
              Sales.product_name s = str_strip (Sales.raw_product_name r) /\
              Sales.customer_email s = clean_email (Sales.raw_customer_email r))
           raw sales) /\
  (str_accessor (map (@Sales.raw_product_name Id) raw) = Raise AttributeError ->
   clean_sales raw = Raise AttributeError).
Proof.
  split.
  - intros C. apply (clean_sales_returns Id W) in C.
    destruct C as (prices & dates & _ & _ & P & D & _ & _ & ->).
    apply cast_column_length in P. apply parse_dates_length in D.
    rewrite length_map in P, D. now apply assemble_rows.
  - intros A. unfold clean_sales, bind. now rewrite A.
Qed.

Lemma drop_duplicates_from_fixed (seen : list (option Id)) (rows : list (Customers.raw Id)) :
  NoDup (map raw_id rows) ->
  (forall r, In r rows -> ~ In (raw_id r) seen) ->
  drop_duplicates_from Id_eq_dec seen rows = rows.
Proof.
  revert seen. induction rows as [|r rows IH]; intros seen N H; [reflexivity|].
  cbn [drop_duplicates_from]. inversion N as [|? ? Hr N']; subst.
  destruct (in_dec _ (raw_id r) seen) as [I|I]; [destruct (H r (or_introl eq_refl) I)|].
  f_equal. apply IH; [exact N'|]. intros x Ix [E|C].
  - apply Hr. rewrite E. now apply in_map.
  - apply (H x); [now right|exact C].
Qed.

Lemma drop_duplicates_from_covers (seen : list (option Id)) (rows : list (Customers.raw Id))
  (r : Customers.raw Id) :
  In r rows ->
  In (raw_id r) seen \/ In (raw_id r) (map raw_id (drop_duplicates_from Id_eq_dec seen rows)).
Proof.
  revert seen. induction rows as [|x rows IH]; intros seen; [intros []|].
  cbn [drop_duplicates_from]. intros [->|I].
  - destruct (in_dec _ (raw_id r) seen) as [S|S]; [now left|right; now left].
  - destruct (in_dec _ (raw_id x) seen) as [S|S].
    + now apply IH.
    + destruct (IH (raw_id x :: seen) I) as [[E|H]|H].
      * right. left. exact E.
      * now left.
      * right. now right.
Qed.

(** X12. Deduplication leaves one row for each customer id of the input,
    each of them a row of the input; doing it again changes nothing, and
    a table without repeated ids is left as it is. *)
Theorem drop_duplicates_keeps_one_row_per_id (raw : list (Customers.raw Id)) :
  NoDup (map raw_id (drop_duplicates Id_eq_dec raw)) /\
  (forall r, In r (drop_duplicates Id_eq_dec raw) -> In r raw) /\
  (forall r, In r raw -> In (raw_id r) (map raw_id (drop_duplicates Id_eq_dec raw))) /\
  drop_duplicates Id_eq_dec (drop_duplicates Id_eq_dec raw) = drop_duplicates Id_eq_dec raw /\
  (NoDup (map raw_id raw) -> drop_duplicates Id_eq_dec raw = raw).
Proof.
  unfold drop_duplicates.
  destruct (drop_duplicates_from_ids Id Id_eq_dec [] raw) as [N H].
  split; [exact N|]. split; [intros r I; now apply H|]. split.
  - intros r I. destruct (drop_duplicates_from_covers [] raw r I) as [[]|C]. exact C.
  - split.
    + apply drop_duplicates_from_fixed; [exact N|]. intros r _ [].
    + intros N'. apply drop_duplicates_from_fixed; [exact N'|]. intros r _ [].
Qed.

(** X15. When the deduplicated table has an age and all of its ages lie
    from 0 up to, not including, 100, every cleaned customer has an age
    and an age group: the median that fills the gaps lies there too. *)
Theorem known_ages_in_range_give_every_group (raw : list (Customers.raw Id)) :
  (exists r, In r (drop_duplicates Id_eq_dec raw) /\ Customers.raw_age r <> None) ->
  (forall r a, In r (drop_duplicates Id_eq_dec raw) -> Customers.raw_age r = Some a ->
               Qle 0 a /\ Qlt a (inject_Z 100)) ->
  Forall (fun c => Customers.age c <> None /\ Customers.age_group c <> None)
         (clean_customers Id_eq_dec raw).
Proof.
  intros H B. destruct (dedup_age_gives_median Id Id_eq_dec raw H) as (m & M).
  assert (Bm : Qle 0 m /\ Qlt m (inject_Z 100)).
  { unfold median_age in M. apply median_of_values in M.
    assert (V : forall x, In (Some x) (map (@Customers.raw_age Id) (drop_duplicates Id_eq_dec raw)) ->
                          Qle 0 x /\ Qlt x (inject_Z 100)).
    { intros x I. apply in_map_iff in I. destruct I as (r & E & I). eauto. }
    destruct M as [I|(a & b & Ia & Ib & ->)]; [now apply V|].
    destruct (V a Ia), (V b Ib).
    split; [apply Qle_shift_div_l | apply Qlt_shift_div_r]; try reflexivity;
      unfold inject_Z in *; lra. }
  unfold clean_customers. rewrite M. apply Forall_forall. intros c I.
  apply in_map_iff in I. destruct I as (r & <- & I).
  unfold clean_customer. cbn [Customers.age Customers.age_group].
  destruct (Customers.raw_age r) as [a|] eqn:A; cbn [Num.fillna age_group_of].
  - split; [discriminate|]. destruct (B r a I A) as [L U].
    destruct (cut_in_range a L U) as (l & ->). discriminate.
  - split; [discriminate|]. destruct Bm as [L U].
    destruct (cut_in_range m L U) as (l & ->). discriminate.
Qed.

(** X16. The merge never loses a sales row, whatever the products and
    customers tables hold: every sales row is in some merged row, every
    merged row carries a sales row, and there are at least as many merged
    rows as sales rows. *)
Theorem merge_never_loses_a_sale (sales : list (Sales.row Id))
  (products : list Products.row) (customers : list (Customers.row Id)) :
  length sales <= length (merged_data Id_eq_dec sales products customers) /\
  (forall s, In s sales ->
             exists r, In r (merged_data Id_eq_dec sales products customers) /\
                       Merged.sale r = s) /\
  (forall r, In r (merged_data Id_eq_dec sales products customers) ->
             In (Merged.sale r) sales).
Proof.
  unfold merged_data.
  set (first := left_join product_key_eq_dec product_key_of_sale product_key sales products).
  destruct (left_join_at_least product_key_eq_dec product_key_of_sale product_key
              sales products) as [L1 I1]. fold first in L1, I1.
  destruct (left_join_at_least (option_eq_dec Id_eq_dec)
              (fun sp : Sales.row Id * option Products.row => Sales.customer_id (fst sp))
              (@Customers.customer_id Id) first customers) as [L2 I2].
  split; [rewrite length_map; lia|]. split.
  - intros s I. destruct (I1 s I) as (p & Ip). destruct (I2 (s, p) Ip) as (c & Ic).
    eexists. split; [apply in_map; exact Ic|reflexivity].
  - intros r I. apply (merged_data_sale_In Id Id_eq_dec sales products customers r).
    exact I.
Qed.

Lemma canonical_country_not_alias (c : option str) :
  Report.cell_is (lit "United Kingdom") (canonical_country c) = false.
Proof.
  unfold canonical_country, replace_values, country_aliases.
  destruct c as [s|]; [|reflexivity]. cbn [lookup].
  destruct (str_eq_dec s (lit "United Kingdom")) as [E|E]; [reflexivity|].
  destruct (str_eq_dec s (lit "")); [reflexivity|].
  unfold Report.cell_is. destruct (str_eq_dec s (lit "United Kingdom")); congruence.
Qed.

(** X17. The report's count of 'Inconsistent country names' is taken after
    the country remap, so it is 0 for every customers table. *)
Theorem inconsistent_country_names_is_zero (raw : list (Customers.raw Id)) :
  Report.inconsistent_country_names (clean_customers Id_eq_dec raw) = 0.
Proof.
  unfold Report.inconsistent_country_names. apply sum_none.
  apply Forall_map, Forall_forall. intros c I. unfold clean_customers in I.
  apply in_map_iff in I. destruct I as (r & <- & _). cbn.
  apply canonical_country_not_alias.
Qed.

Lemma merged_sales_with_unique_keys (sales : list (Sales.row Id))
  (products : list Products.row) (raw_customers : list (Customers.raw Id)) :
  NoDup (map product_key products) ->
  map (@Merged.sale Id)
      (merged_data Id_eq_dec sales products (clean_customers Id_eq_dec raw_customers))
  = sales.
Proof.
  intros N. unfold merged_data. rewrite map_map. cbn [Merged.sale].
  rewrite <- (map_map fst fst).
  rewrite left_join_fst by apply clean_customers_NoDup.
  now apply left_join_fst.
Qed.

(** X18. With products unique per (product_name, category), the total
    revenue of the merged table is the total revenue of the sales table:
    the merge counts no sale twice. *)
Theorem merge_keeps_total_revenue (sales : list (Sales.row Id))
  (products : list Products.row) (raw_customers : list (Customers.raw Id)) :
  NoDup (map product_key products) ->
  Report.total_revenue
    (merged_data Id_eq_dec sales products (clean_customers Id_eq_dec raw_customers))
  = Report.sales_revenue sales.
Proof.
  intros N. unfold Report.total_revenue, Report.sales_revenue. f_equal.
  rewrite <- (merged_sales_with_unique_keys sales products raw_customers N) at 2.
  rewrite map_map. reflexivity.
Qed.

(** X19. A merged row whose sale has no product of its name and category
    has no cost price and no profit; one that has a product carries that
    product's cost price. *)
Theorem unmatched_sale_has_no_profit (sales : list (Sales.row Id))
  (products : list Products.row) (customers : list (Customers.row Id))
  (r : Merged.row Id) :
  In r (merged_data Id_eq_dec sales products customers) ->
  ((forall p, In p products -> product_key p <> product_key_of_sale (Merged.sale r)) ->
   Merged.cost_price r = None /\ Merged.profit r = None) /\
  (Merged.cost_price r <> None ->
   exists p, In p products /\ product_key p = product_key_of_sale (Merged.sale r) /\
             Merged.cost_price r = Products.cost_price p).
Proof.
  intros I. apply merged_data_sale_In in I. destruct I as (_ & P & _).
  unfold Merged.cost_price, Merged.profit, Merged.cost_price.
  destruct (Merged.product r) as [p|].
  - destruct P as [Ip Ek]. split.
    + intros H. destruct (H p Ip Ek).
    + intros _. now exists p.
  - split; [|congruence]. intros _. split; [reflexivity|].
    unfold Num.sub, Num.mul, Num.lift2. now destruct (Merged.price r).
Qed.

Lemma sum_all (marks : list bool) :
  Forall (fun b => b = true) marks -> sum marks = length marks.
Proof.
  unfold sum. induction 1 as [|b marks -> _ IH]; simpl; auto.
Qed.

(** X20. The report's two counts on the customers table say little: the
    count of duplicate records is 0 for every input, and the count of
    missing ages is 0 or, when no kept row has an age, the number of
    customers. *)
Theorem customer_counts_are_all_or_nothing (raw : list (Customers.raw Id)) :
  duplicate_records Id_eq_dec (clean_customers Id_eq_dec raw) = 0 /\
  (missing_age_values (clean_customers Id_eq_dec raw) = 0 \/
   missing_age_values (clean_customers Id_eq_dec raw)
   = length (clean_customers Id_eq_dec raw)) /\
  length (clean_customers Id_eq_dec raw) <= length raw.
Proof.
  split; [|split].
  - unfold duplicate_records, duplicated. apply sum_none.
    apply (duplicated_from_none Id Id_eq_dec);
      [apply clean_customers_NoDup|intros r _ []].
  - unfold missing_age_values, clean_customers.
    destruct (median_age (drop_duplicates Id_eq_dec raw)) as [m|] eqn:M.
    + left. apply sum_none. rewrite !Forall_map. apply Forall_forall.
      intros r _. cbn. now destruct (Customers.raw_age r).
    + right. rewrite sum_all; [now rewrite length_map|].
      rewrite !Forall_map. apply Forall_forall. intros r I. cbn.
      destruct (Customers.raw_age r) as [a|] eqn:A; [|reflexivity].
      exfalso. unfold median_age in M.
      destruct (median_some (map (@Customers.raw_age Id) (drop_duplicates Id_eq_dec raw)) a)
        as (m & E); [|congruence].
      rewrite <- A. now apply in_map.
  - unfold clean_customers. rewrite length_map. unfold drop_duplicates.
    generalize (@nil (option Id)). induction raw as [|r raw IH]; intros seen; simpl; [lia|].
    destruct (in_dec _ _ seen); simpl; [specialize (IH seen)|specialize (IH (raw_id r :: seen))];
      lia.
Qed.

End MoreTableFacts.

Lemma drop_duplicates_keeps_one_row_per_id_witness :
  let raw := [customer 1 "Ann" None "UK"; customer 2 "Bo" None "France"] in
  NoDup (map (@Customers.raw_customer_id N) raw) /\
  drop_duplicates N.eq_dec raw = raw.
Proof.
  cbv zeta.
  assert (H : NoDup (map (@Customers.raw_customer_id N)
                       [customer 1 "Ann" None "UK"; customer 2 "Bo" None "France"])).
  { repeat constructor; simpl; intuition discriminate. }
  split; [exact H|].
  exact (proj2 (proj2 (proj2 (proj2
           (drop_duplicates_keeps_one_row_per_id N N.eq_dec _)))) H).
Defined.

Lemma known_ages_in_range_give_every_group_witness :
  let raw :=
    [customer 1 "Ann" (Some (inject_Z 30)) "UK"; customer 2 "Bo" None "France";
     customer 3 "Cy" (Some (inject_Z 41)) "Spain"] in
  Forall (fun c => Customers.age c <> None /\ Customers.age_group c <> None)
         (clean_customers N.eq_dec raw).
Proof.
  cbv zeta. apply known_ages_in_range_give_every_group.
  - exists (customer 1 "Ann" (Some (inject_Z 30)) "UK"). split; [left; reflexivity|discriminate].
  - intros r a [<-|[<-|[<-|[]]]] E; inversion E; subst; split; reflexivity || discriminate.
Defined.

Lemma merge_keeps_total_revenue_witness :
  let sale (id : N) (revenue : Z) :=
    Sales.Row (Some id) (Some (lit "Desk")) (Some (lit "Home")) (Some (inject_Z 10))
      (Some (inject_Z 2)) None (Some id) None (Some (inject_Z revenue)) in
  let sales := [sale 1%N 20%Z; sale 2%N 35%Z] in
  let products := [Products.Row (Some (lit "Desk")) (Some (lit "Home")) (Some (inject_Z 6))] in
  NoDup (map product_key products) /\
  Report.total_revenue (merged_data N.eq_dec sales products (clean_customers N.eq_dec []))
  = Report.sales_revenue sales.
Proof.
  cbv zeta. split.
  - constructor; [intros []|constructor].
  - apply merge_keeps_total_revenue. constructor; [intros []|constructor].
Defined.

Lemma clean_sales_keeps_rows_witness :
  let raw :=
    [Sales.Raw (Some 3%N) (Some (lit " Lamp")) (Some (lit "Home"))
       (Some (lit "$12.50")) (Some (inject_Z 4)) (Some (lit "11/02/2024"))
       (Some 9%N) (Some (lit "bo@shop.org "))] in
  let numbers :=
    [Sales.Raw (Some 3%N) (Some (lit "12")) (Some (lit "Home"))
       (Some (lit "$12.50")) (Some (inject_Z 4)) (Some (lit "11/02/2024"))
       (Some 9%N) (Some (lit "bo@shop.org "))] in
  (exists sales,
      clean_sales (W := strict_library) raw = Ok sales /\ length sales = length raw) /\
  str_accessor (W := strict_library) (map (@Sales.raw_product_name N) numbers)
  = Raise AttributeError /\
  clean_sales (W := strict_library) numbers = Raise AttributeError.
Proof.
  cbv zeta. split.
  - eexists. split; [vm_compute; reflexivity|].
    refine (proj1 (proj1 (clean_sales_keeps_rows N strict_library _ _) _)).
    vm_compute. reflexivity.
  - split; [reflexivity|].
    refine (proj2 (clean_sales_keeps_rows N strict_library _ []) _). reflexivity.
Defined.

Lemma unmatched_sale_has_no_profit_witness :
  let s := Sales.Row (Some 1%N) (Some (lit "Desk")) (Some (lit "Home")) (Some (inject_Z 10))
             (Some (inject_Z 2)) None (Some 1%N) None (Some (inject_Z 20)) in
  let products := [Products.Row (Some (lit "Lamp")) (Some (lit "Home")) (Some (inject_Z 6))] in
  let r := Merged.Row s None None in
  In r (merged_data N.eq_dec [s] products []) /\
  Merged.cost_price r = None /\ Merged.profit r = None.
Proof.
  cbv zeta.
  assert (I : In (Merged.Row
                    (Sales.Row (Some 1%N) (Some (lit "Desk")) (Some (lit "Home"))
                       (Some (inject_Z 10)) (Some (inject_Z 2)) None (Some 1%N) None
                       (Some (inject_Z 20))) None None)
                (merged_data N.eq_dec
                   [Sales.Row (Some 1%N) (Some (lit "Desk")) (Some (lit "Home"))
                      (Some (inject_Z 10)) (Some (inject_Z 2)) None (Some 1%N) None
                      (Some (inject_Z 20))]
                   [Products.Row (Some (lit "Lamp")) (Some (lit "Home")) (Some (inject_Z 6))]
                   [])).
  { left. reflexivity. }
  split; [exact I|].
  apply (proj1 (unmatched_sale_has_no_profit N N.eq_dec _ _ _ _ I)).
  intros p [<-|[]]. discriminate.
Defined.

End CleaningMore.




(** ** More on the run of the script *)

Module ScriptMore.
Import Script ScriptFacts.

Section MoreRunFacts.

Variable Table Cleaned MergedData Analysis Reports : Type.
Variable current_dir : str.
Variable read_text : str -> result str.
Variable read_csv : str -> result Table.
Variable str_of_exception : exn -> str.
Variable clean : Table * Table * Table -> result Cleaned.
Variable merge : Cleaned -> result MergedData.
Variable analyse : MergedData -> result Analysis.
Variable build_reports : Cleaned -> MergedData -> Analysis -> result Reports.
Variable makedirs : str -> result unit.
Variable to_csv : Reports -> str -> result unit.

Local Abbreviation the_main :=
  (main current_dir read_text read_csv str_of_exception clean merge analyse
     build_reports makedirs to_csv).
Local Abbreviation report_paths :=
  [path_join [output_dir current_dir; lit "data_cleaning_report.csv"];
   path_join [output_dir current_dir; lit "business_insights.csv"];
   path_join [output_dir current_dir; lit "cleaned_merged_data.csv"]].

(** X21. [load_csv] fails only when reading the file or parsing the
    repaired text fails, and with that exception: the repair in between
    never raises, and the parser is given the kept lines joined by
    newlines. *)
Theorem load_csv_fails_only_in_read_or_parse (filepath : str) :
  match read_text filepath with
  | Raise e => load_csv read_text read_csv filepath = Raise e
  | Ok content =>
      exists lines,
        LoadCsv.good_lines content = Ok lines /\
        load_csv read_text read_csv filepath = read_csv (join newline lines)
  end.
Proof.
  unfold load_csv, bind. destruct (read_text filepath) as [content|e]; [|reflexivity].
  destruct (LoaderMore.repaired_text_split content) as (lines & text & G & T & _).
  exists lines. split; [exact G|]. rewrite T.
  unfold LoadCsv.repaired_text, bind in T. rewrite G in T. now inversion T.
Qed.



(** X23. Nothing is made or written before every earlier stage has
    returned: a run that creates the reports directory or calls [to_csv]
    has loaded the three tables, cleaned, merged and analysed them and
    built the reports. *)
Theorem writes_only_after_all_stages :
  existsb is_write (fst the_main) = true ->
  exists tables c m a r,
    loading_returns current_dir read_text read_csv tables /\
    clean tables = Ok c /\ merge c = Ok m /\ analyse m = Ok a /\
    build_reports c m a = Ok r.
Proof.
  unfold main, load_all, load_failed, after_loading, write, loading_returns.
  cbn [mbind print]. intros H.
  repeat match type of H with
         | context [lift ?r] =>
             let E := fresh "E" in
             destruct r as [?|?] eqn:E;
             cbn [mbind lift print ret snd fst app try_except] in H
         end;
    try discriminate H;
    eexists (_, _, _), _, _, _, _; cbn [fst snd];
    repeat split; eassumption.
Qed.

(** X24. When every stage returns, the run prints its seven progress
    lines, makes the reports directory, writes the three files and ends
    normally. *)
Theorem successful_run (tables : Table * Table * Table) (c : Cleaned)
  (m : MergedData) (a : Analysis) (r : Reports) :
  loading_returns current_dir read_text read_csv tables ->
  clean tables = Ok c -> merge c = Ok m -> analyse m = Ok a ->
  build_reports c m a = Ok r ->
  makedirs (output_dir current_dir) = Ok tt ->
  Forall (fun p => to_csv r p = Ok tt) report_paths ->
  the_main =
    ([Stdout (lit "Loading data files...");
      Stdout (lit "Data loaded successfully!");
      Stdout (newline :: lit "Cleaning data...");
      Stdout (newline :: lit "Merging datasets...");
      Stdout (newline :: lit "Analyzing data...");
      Stdout (newline :: lit "Generating reports...");
      MakeDirs (output_dir current_dir)]
     ++ map ToCsv report_paths
     ++ [Stdout (newline :: lit "Analysis complete!");
         Stdout (lit "Reports saved to: " ++ output_dir current_dir)],
     Returned tt).
Proof.
  intros (L1 & L2 & L3) C M A B D W.
  inversion W as [|? ? W1 W']; subst. inversion W' as [|? ? W2 W'']; subst.
  inversion W'' as [|? ? W3 _]; subst.
  unfold main, load_all, after_loading, write.
  rewrite L1, L2, L3. cbn [mbind lift print ret snd fst app try_except].
  destruct tables as [[t1 t2] t3]. cbn [fst snd] in *.
  rewrite C. cbn [mbind lift print ret snd fst app].
  rewrite M. cbn [mbind lift print ret snd fst app].
  rewrite A. cbn [mbind lift print ret snd fst app].
  rewrite B. cbn [mbind lift print ret snd fst app].
  rewrite D. cbn [mbind lift print ret snd fst app].
  rewrite W1. cbn [mbind lift print ret snd fst app].
  rewrite W2. cbn [mbind lift print ret snd fst app].
  rewrite W3. reflexivity.
Qed.

End MoreRunFacts.

Lemma writes_only_after_all_stages_witness :
  existsb is_write (fst (Worlds.quiet_world_main (fun _ => Ok tt))) = true /\
  exists tables c m a r,
    loading_returns (lit "/srv/scripts") (fun _ => Ok (lit "a,b")) (fun _ => Ok tt) tables /\
    (fun _ : unit * unit * unit => @Ok unit tt) tables = Ok c /\
    (fun _ : unit => @Ok unit tt) c = Ok m /\
    (fun _ : unit => @Ok unit tt) m = Ok a /\
    (fun _ _ _ : unit => @Ok unit tt) c m a = Ok r.
Proof.
  split; [reflexivity|].
  exact (writes_only_after_all_stages unit unit unit unit unit
           (lit "/srv/scripts") (fun _ => Ok (lit "a,b")) (fun _ => Ok tt)
           (fun _ => []) (fun _ => Ok tt) (fun _ => Ok tt) (fun _ => Ok tt)
           (fun _ _ _ => Ok tt) (fun _ => Ok tt) (fun _ _ => Ok tt) eq_refl).
Defined.

Lemma successful_run_witness :
  snd (Worlds.quiet_world_main (fun _ => Ok tt)) = Returned tt /\
  length (fst (Worlds.quiet_world_main (fun _ => Ok tt))) = 12.
Proof.
  assert (E := successful_run unit unit unit unit unit
           (lit "/srv/scripts") (fun _ => Ok (lit "a,b")) (fun _ => Ok tt)
           (fun _ => []) (fun _ => Ok tt) (fun _ => Ok tt) (fun _ => Ok tt)
           (fun _ _ _ => Ok tt) (fun _ => Ok tt) (fun _ _ => Ok tt)
           (tt, tt, tt) tt tt tt tt
           (conj eq_refl (conj eq_refl eq_refl)) eq_refl eq_refl eq_refl eq_refl eq_refl
           (Forall_cons _ eq_refl (Forall_cons _ eq_refl (Forall_cons _ eq_refl (Forall_nil _))))).
  unfold Worlds.quiet_world_main. rewrite E. split; reflexivity.
Defined.

End ScriptMore.
